(** * Utilities.js of apps-script-oauth2: a shallow embedding and its properties

    The file models the helper functions of [src/Utilities.js]:
    [buildUrl_], [validate_], [getTimeInSeconds_], [extend_],
    [toLowerCaseKeys_], [encodeJwt_] and [decodeJwt_].

    Modelling conventions.
    - A JavaScript string is a [string]: the sequence of bytes of its UTF-8
      encoding.  Concatenation, [split] on an ASCII character, [indexOf] of an
      ASCII character, percent-encoding and base64 all act on that sequence
      the way the host acts on the string.
    - An object is the list of its own enumerable data properties, in the
      order [Object.keys] enumerates them (array-index keys in ascending
      order first, then the other keys in creation order).  Every object is
      an ordinary, extensible one whose prototype is [Object.prototype],
      as an object literal and [JSON.parse] make them.  The one inherited
      accessor that an assignment can reach, [__proto__], is modelled by
      its effect on the own properties (none).  The prototype link itself
      is not recorded; [keeps_prototypes] says of an object that assigning
      its properties replaces no prototype.
    - Objects that the code mutates or whose identity matters live in a
      store ([heap]) and are denoted by their location.
    - A thrown exception is the [Throw] case of [completion]. *)

From Stdlib Require Import ZArith NArith String Ascii List Bool Lia.
From Stdlib Require Import DecimalString DecimalN.
From Stdlib Require QArith Qround.
From stdpp Require Import base option gmap.
Import ListNotations.

Local Open Scope list_scope.
Local Open Scope string_scope.

(* String concatenation computes on a literal first argument. *)
#[local] Arguments String.append !s1 s2 : simpl nomatch.
#[local] Set Warnings "-register-all".

(* ===================================================================== *)
(** * Part I: the model                                                   *)
(* ===================================================================== *)

(** ** Completions: normal return or a thrown exception *)

Inductive exception : Type :=
| Error (message : string)          (* [new Error(message)] *)
| TypeError (message : string)      (* raised by the host on a bad argument *)
| SyntaxError (message : string).   (* raised by [JSON.parse] *)

Inductive completion (A : Type) : Type :=
| Return (a : A)
| Throw (e : exception).
Arguments Return {A} a.
Arguments Throw {A} e.

Definition bind {A B} (c : completion A) (k : A -> completion B) : completion B :=
  match c with
  | Return a => k a
  | Throw e => Throw e
  end.

Notation "'let*' x ':=' c 'in' k" := (bind c (fun x => k))
  (at level 10, x name, c at level 100, k at level 200).

(** [Array.prototype.forEach] with a callback that may throw: the first
    exception ends the iteration. *)
Fixpoint forEach {A} (l : list A) (callback : A -> completion unit) : completion unit :=
  match l with
  | [] => Return tt
  | x :: rest => let* _ := callback x in forEach rest callback
  end.

(** ** Numbers

    A number is NaN, an infinity, negative zero, or a finite value, held as
    an exact rational. *)

Inductive number : Type :=
| NaN
| Infinite (negative : bool)
| NegZero
| Finite (q : QArith_base.Q).

Definition of_Z (z : Z) : number := Finite (QArith_base.inject_Z z).

(** ** Strings *)

Definition char_code (c : ascii) : N := N_of_ascii c.

Definition in_range (lo hi c : ascii) : bool :=
  ((char_code lo <=? char_code c) && (char_code c <=? char_code hi))%N.

Definition is_digit (c : ascii) : bool := in_range "0" "9" c.
Definition is_upper (c : ascii) : bool := in_range "A" "Z" c.
Definition is_lower (c : ascii) : bool := in_range "a" "z" c.

(** The character at position [n] of [table] (NUL out of range). *)
Definition char_at (table : string) (n : N) : ascii :=
  match String.get (N.to_nat n) table with
  | Some c => c
  | None => zero
  end.

(** [s.indexOf(pattern)], as a JavaScript number: -1 when absent. *)
Definition indexOf (s pattern : string) : Z :=
  match String.index 0 pattern s with
  | Some n => Z.of_nat n
  | None => -1
  end.

(** [list.join(sep)] *)
Definition join (sep : string) (l : list string) : string := String.concat sep l.

(** [s.split(sep)] for a one-character separator: the pieces between the
    occurrences of [sep]; never the empty list. *)
Fixpoint split (sep : ascii) (s : string) : list string :=
  match s with
  | EmptyString => [EmptyString]
  | String c rest =>
      if Ascii.eqb c sep then EmptyString :: split sep rest
      else match split sep rest with
           | piece :: pieces => String c piece :: pieces
           | [] => [String c EmptyString]
           end
  end.

(** ** Objects as ordered property lists *)

(** The value of a decimal numeral made of digits only. *)
Fixpoint digits_value (s : string) (acc : N) : option N :=
  match s with
  | EmptyString => Some acc
  | String c rest =>
      if is_digit c
      then digits_value rest (10 * acc + (char_code c - char_code "0"))%N
      else None
  end.

(** A property key is an array index when it is the canonical decimal
    numeral of an integer below 2^32 - 1. *)
Definition array_index (k : string) : option N :=
  match k with
  | EmptyString => None
  | String "0" EmptyString => Some 0%N
  | String "0" _ => None
  | _ => match digits_value k 0 with
         | Some n => if (n <? 2 ^ 32 - 1)%N then Some n else None
         | None => None
         end
  end.

(** [precedes k k']: a newly created property [k] is enumerated before the
    existing property [k']. *)
Definition precedes (k k' : string) : bool :=
  match array_index k, array_index k' with
  | Some n, Some n' => (n <? n')%N
  | Some _, None => true
  | None, _ => false
  end.

Section PropertyList.
Context {V : Type}.

(** Own-property lookup. *)
Fixpoint obj_lookup (o : list (string * V)) (k : string) : option V :=
  match o with
  | [] => None
  | (k', v) :: rest => if String.eqb k' k then Some v else obj_lookup rest k
  end.

(** [Object.keys(o)] *)
Definition Object_keys (o : list (string * V)) : list string := map fst o.

(** Overwrite the value of an existing property, keeping its position. *)
Fixpoint obj_replace (k : string) (v : V) (o : list (string * V)) : list (string * V) :=
  match o with
  | [] => []
  | (k', v') :: rest =>
      if String.eqb k' k then (k', v) :: rest else (k', v') :: obj_replace k v rest
  end.

(** Create a property that does not exist yet. *)
Fixpoint obj_create (k : string) (v : V) (o : list (string * V)) : list (string * V) :=
  match o with
  | [] => [(k, v)]
  | (k', v') :: rest =>
      if precedes k k' then (k, v) :: o else (k', v') :: obj_create k v rest
  end.

(** [CreateDataProperty(o, k, v)], by which an object literal and
    [JSON.parse] give an object its properties: an own property [k] gets the
    value, a missing one is created. *)
Definition obj_define (k : string) (v : V) (o : list (string * V)) : list (string * V) :=
  match obj_lookup o k with
  | Some _ => obj_replace k v o
  | None => obj_create k v o
  end.

(** The members read by [JSON.parse], defined one after the other. *)
Definition obj_define_all (target entries : list (string * V)) : list (string * V) :=
  fold_left (fun t kv => obj_define (fst kv) (snd kv) t) entries target.

(** [reaches_setter o k]: the assignment [o[k] = v] finds no own property
    [k] and, looking along the prototype chain, ends in the accessor
    [__proto__] of [Object.prototype]. *)
Definition reaches_setter (o : list (string * V)) (k : string) : bool :=
  String.eqb k "__proto__" &&
  match obj_lookup o k with Some _ => false | None => true end.

(** [o[k] = v], the assignment.  When it reaches the inherited setter no
    property is created: the setter replaces the prototype when [v] is an
    object or [null] and does nothing for any other value.  Otherwise an
    own property [k] gets the value and a missing one is created. *)
Definition obj_set (k : string) (v : V) (o : list (string * V)) : list (string * V) :=
  if reaches_setter o k then o else obj_define k v o.

(** [Object.assign(target, source)] on property lists: every property of
    [source], in enumeration order, is assigned to [target]. *)
Definition Object_assign (target source : list (string * V)) : list (string * V) :=
  fold_left (fun t kv => obj_set (fst kv) (snd kv) t) source target.

(** The representation invariant of a property list: keys are distinct and
    in enumeration order. *)
Fixpoint in_order (o : list (string * V)) : bool :=
  match o with
  | [] => true
  | (k, _) :: rest =>
      forallb (fun kv => negb (String.eqb (fst kv) k) && negb (precedes (fst kv) k)) rest
      && in_order rest
  end.
End PropertyList.

(** ** buildUrl_ *)

(** [encodeURIComponent]: the unreserved characters are kept, every other
    byte of the UTF-8 encoding becomes [%XX] in upper-case hexadecimal. *)
Definition uri_unreserved (c : ascii) : bool :=
  is_upper c || is_lower c || is_digit c ||
  existsb (Ascii.eqb c) (list_ascii_of_string "-_.!~*'()").

Definition hex_upper (n : N) : ascii := char_at "0123456789ABCDEF" n.

Definition percent_encode (c : ascii) : string :=
  String "%" (String (hex_upper (char_code c / 16)) (String (hex_upper (char_code c mod 16)) "")).

Fixpoint encodeURIComponent (s : string) : string :=
  match s with
  | EmptyString => EmptyString
  | String c rest =>
      (if uri_unreserved c then String c "" else percent_encode c) ++ encodeURIComponent rest
  end.

(** The characters that [encodeURIComponent] can emit: the unreserved ones
    and the percent sign (the hexadecimal digits are unreserved). *)
Definition uri_safe (c : ascii) : bool :=
  uri_unreserved c || Ascii.eqb c "%".

(** [params[key]] for a map of strings; a missing property reads as
    [undefined], which [encodeURIComponent] turns into its name. *)
Definition param (params : list (string * string)) (key : string) : string :=
  match obj_lookup params key with
  | Some v => v
  | None => "undefined"
  end.

Definition buildUrl_ (url : string) (params : list (string * string)) : string :=
  let paramString :=
    join "&" (map (fun key => encodeURIComponent key ++ "=" ++ encodeURIComponent (param params key))
                  (Object_keys params)) in
  url ++ (if (0 <=? indexOf url "?")%Z then "&" else "?") ++ paramString.

(** ** getTimeInSeconds_ *)

(** The time value of a [Date]: an integral number of milliseconds since the
    epoch (of magnitude at most 8.64e15), or NaN for an invalid date. *)
Inductive time_value : Type :=
| TimeNaN
| TimeMs (ms : Z).

Record Date : Type := { getTime : time_value }.

(** The time value as the number that [date.getTime()] returns. *)
Definition time_number (t : time_value) : number :=
  match t with
  | TimeNaN => NaN
  | TimeMs ms => of_Z ms
  end.

(** [Math.floor(date.getTime() / 1000)].  The quotient is taken in the
    rationals: for a time value the double nearest to [ms / 1000] has the
    same floor, because a non-integral quotient is at least 1/1000 away from
    the integers around it and doubles of magnitude below 2^43 are spaced
    less than 1/1000 apart. *)
Definition getTimeInSeconds_ (date : Date) : number :=
  match getTime date with
  | TimeNaN => NaN
  | TimeMs ms =>
      of_Z (Qround.Qfloor (QArith_base.Qdiv (QArith_base.inject_Z ms) (QArith_base.inject_Z 1000)))
  end.

(** ** Values and the store *)

Definition loc := nat.

Inductive value : Type :=
| VUndefined
| VNull
| VBool (b : bool)
| VNum (n : number)
| VStr (s : string)
| VObject (l : loc)      (* a reference to an ordinary object *)
| VFunction (l : loc).   (* a reference to a callable object *)

(** The store maps the location of an object to its property list. *)
Abbreviation heap := (gmap loc (list (string * value))).

Definition typeof (v : value) : string :=
  match v with
  | VUndefined => "undefined"
  | VNull => "object"
  | VBool _ => "boolean"
  | VNum _ => "number"
  | VStr _ => "string"
  | VObject _ => "object"
  | VFunction _ => "function"
  end.

(** [!v] is [negb (ToBoolean v)]. *)
Definition ToBoolean (v : value) : bool :=
  match v with
  | VUndefined | VNull => false
  | VBool b => b
  | VNum NaN | VNum NegZero => false
  | VNum (Infinite _) => true
  | VNum (Finite q) => negb (QArith_base.Qeq_bool q (QArith_base.inject_Z 0))
  | VStr s => negb (String.eqb s "")
  | VObject _ | VFunction _ => true
  end.

(** JavaScript's [<=] on numbers. *)
Definition number_leb (x y : number) : bool :=
  match x, y with
  | NaN, _ | _, NaN => false
  | Infinite true, _ => true
  | _, Infinite false => true
  | Infinite false, _ => false
  | _, Infinite true => false
  | NegZero, NegZero => true
  | NegZero, Finite q => QArith_base.Qle_bool (QArith_base.inject_Z 0) q
  | Finite q, NegZero => QArith_base.Qle_bool q (QArith_base.inject_Z 0)
  | Finite q, Finite q' => QArith_base.Qle_bool q q'
  end.

(** [x === y]: primitives are compared by value, references by location. *)
Definition strict_equal (x y : value) : bool :=
  match x, y with
  | VUndefined, VUndefined => true
  | VNull, VNull => true
  | VBool a, VBool b => Bool.eqb a b
  | VStr a, VStr b => String.eqb a b
  | VObject a, VObject b => Nat.eqb a b
  | VFunction a, VFunction b => Nat.eqb a b
  | VNum a, VNum b => number_leb a b && number_leb b a
  | _, _ => false
  end.

(** [o[k]] read as a value: a missing property reads as [undefined]. *)
Definition obj_get (o : list (string * value)) (k : string) : value :=
  match obj_lookup o k with
  | Some v => v
  | None => VUndefined
  end.

(** The property list of the object at [l]. *)
Definition props (h : heap) (l : loc) : list (string * value) :=
  match h !! l with
  | Some o => o
  | None => []
  end.

(** [l[k]] and [l[k] = v] through the store. *)
Definition heap_get (h : heap) (l : loc) (k : string) : value := obj_get (props h l) k.

Definition heap_set (l : loc) (k : string) (v : value) (h : heap) : heap :=
  <[l := obj_set k v (props h l)]> h.

(** [{}]: a new object at a location not in use. *)
Definition alloc (h : heap) : loc * heap :=
  let l := fresh (dom h) in (l, <[l := []]> h).

(** A value that the setter of [__proto__] installs as the prototype; it
    ignores every other value. *)
Definition replaces_prototype (v : value) : bool :=
  match v with
  | VObject _ | VFunction _ | VNull => true
  | _ => false
  end.

(** [keeps_prototypes o]: assigning the properties of [o] to an object
    replaces no prototype, because [o] holds no object, function or [null]
    under the key [__proto__]. *)
Definition keeps_prototypes (o : list (string * value)) : bool :=
  forallb (fun kv => negb (String.eqb (fst kv) "__proto__" && replaces_prototype (snd kv))) o.

(** ** validate_ *)

Definition validate_ (params : list (string * value)) : completion unit :=
  forEach (Object_keys params) (fun name =>
    let value := obj_get params name in
    if negb (ToBoolean value)
    then Throw (Error (name ++ " is required."))
    else Return tt).

(** The callback of [validate_] seen on an entry [(name, value)] of the map. *)
Definition check_entry (kv : string * value) : completion unit :=
  if negb (ToBoolean (snd kv)) then Throw (Error (fst kv ++ " is required.")) else Return tt.

(** ** extend_ *)

(** The body of the [for] loop, run over [keys[i]], [i = 0 .. keys.length - 1]:
    [destination[keys[i]] = source[keys[i]]]. *)
Fixpoint extend_loop (destination source : loc) (keys : list string) (h : heap) : heap :=
  match keys with
  | [] => h
  | key :: rest =>
      extend_loop destination source rest (heap_set destination key (heap_get h source key) h)
  end.

Definition extend_ (destination source : loc) (h : heap) : loc * heap :=
  let keys := Object_keys (props h source) in
  (destination, extend_loop destination source keys h).

(** ** toLowerCaseKeys_ *)

Section LowerCase.
(** [String.prototype.toLowerCase], which follows the Unicode case
    tables of the host. *)
Variable toLowerCase : string -> string.

(** [Object.keys(obj).reduce(function(result, k) {...}, {})]: the
    accumulator is the location of the new object. *)
Definition toLowerCaseKeys_ (obj : value) (h : heap) : value * heap :=
  if strict_equal obj VNull || negb (String.eqb (typeof obj) "object")
  then (obj, h)
  else
    match obj with
    | VObject l =>
        let '(result, h0) := alloc h in
        (VObject result,
         fold_left (fun h' k => heap_set result (toLowerCase k) (heap_get h' l k) h')
                   (Object_keys (props h l)) h0)
    | _ => (obj, h)   (* no other value has type "object" *)
    end.

(** The entry that [toLowerCaseKeys_] writes for an entry of its input. *)
Definition lower_entry (kv : string * value) : string * value :=
  (toLowerCase (fst kv), snd kv).

End LowerCase.

(** Lower-casing of the ASCII letters, on which every [toLowerCase]
    agrees for ASCII keys. *)
Definition ascii_lower (c : ascii) : ascii :=
  if is_upper c then ascii_of_N (char_code c + 32) else c.

Fixpoint ascii_toLowerCase (s : string) : string :=
  match s with
  | EmptyString => EmptyString
  | String c rest => String (ascii_lower c) (ascii_toLowerCase rest)
  end.

(** ** Base64, URL-safe alphabet *)

Definition base64_alphabet : string :=
  "ABCDEFGHIJKLMNOPQRSTUVWXYZabcdefghijklmnopqrstuvwxyz0123456789-_".

Definition base64_char (n : N) : ascii := char_at base64_alphabet n.

Definition base64_value (c : ascii) : option N :=
  if is_upper c then Some (char_code c - char_code "A")%N
  else if is_lower c then Some (char_code c - char_code "a" + 26)%N
  else if is_digit c then Some (char_code c - char_code "0" + 52)%N
  else if Ascii.eqb c "-" then Some 62%N
  else if Ascii.eqb c "_" then Some 63%N
  else None.

(** Three bytes become four characters; a last group of one or two bytes
    is padded with [=]. *)
Fixpoint base64_encode (data : list ascii) : string :=
  match data with
  | [] => ""
  | [a] =>
      let n := char_code a in
      String (base64_char (n / 4)) (String (base64_char (n mod 4 * 16)) "==")
  | [a; b] =>
      let n := (char_code a * 256 + char_code b)%N in
      String (base64_char (n / 1024))
        (String (base64_char (n / 16 mod 64)) (String (base64_char (n mod 16 * 4)) "="))
  | a :: b :: c :: rest =>
      let n := (char_code a * 65536 + char_code b * 256 + char_code c)%N in
      String (base64_char (n / 262144))
        (String (base64_char (n / 4096 mod 64))
           (String (base64_char (n / 64 mod 64))
              (String (base64_char (n mod 64)) (base64_encode rest))))
  end.

(** Four characters become three bytes; the last group may have two or
    three characters, with or without its padding. *)
Fixpoint base64_decode (s : string) : option (list ascii) :=
  match s with
  | EmptyString => Some []
  | String c1 (String c2 rest2) =>
      match base64_value c1, base64_value c2 with
      | Some v1, Some v2 =>
          let byte1 := ascii_of_N (v1 * 4 + v2 / 16) in
          match rest2 with
          | EmptyString => Some [byte1]
          | String c3 rest3 =>
              match base64_value c3 with
              | Some v3 =>
                  let byte2 := ascii_of_N (v2 mod 16 * 16 + v3 / 4) in
                  match rest3 with
                  | EmptyString => Some [byte1; byte2]
                  | String c4 rest4 =>
                      match base64_value c4 with
                      | Some v4 =>
                          let byte3 := ascii_of_N (v3 mod 4 * 64 + v4) in
                          match base64_decode rest4 with
                          | Some bytes => Some (byte1 :: byte2 :: byte3 :: bytes)
                          | None => None
                          end
                      | None => if String.eqb rest3 "=" then Some [byte1; byte2] else None
                      end
                  end
              | None => if String.eqb rest2 "==" then Some [byte1] else None
              end
          end
      | _, _ => None
      end
  | String _ EmptyString => None
  end.

(** ** Double-precision numbers and their numerals

    The numbers of a JSON value are IEEE 754 doubles: [JSON.parse] rounds a
    numeral to the nearest double and [JSON.stringify] prints the shortest
    numeral that denotes the double.  A finite double other than zero is
    [m] x 2^[e] with 2^52 <= m < 2^53 and -1074 <= e <= 971, or, below the
    normal range, m < 2^52 and e = -1074. *)

Inductive double : Type :=
| DNaN
| DInfinity (negative : bool)
| DZero (negative : bool)
| DFinite (negative : bool) (m : positive) (e : Z).

(** The representation invariant of a double. *)
Definition valid_double (x : double) : bool :=
  match x with
  | DFinite _ m e =>
      ((2 ^ 52 <=? Zpos m) && (Zpos m <? 2 ^ 53) && (-1074 <=? e) && (e <=? 971)
       || (Zpos m <? 2 ^ 52) && (e =? -1074))%Z
  | _ => true
  end.

Definition double_eqb (x y : double) : bool :=
  match x, y with
  | DNaN, DNaN => true
  | DInfinity a, DInfinity b => Bool.eqb a b
  | DZero a, DZero b => Bool.eqb a b
  | DFinite a m e, DFinite b m' e' => Bool.eqb a b && Pos.eqb m m' && Z.eqb e e'
  | _, _ => false
  end.

(** [floor_log2 p q] is the [l] with 2^l <= p/q < 2^(l+1), for positive
    [p] and [q]. *)
Definition floor_log2 (p q : Z) : Z :=
  let l := (Z.log2 p - Z.log2 q)%Z in
  if (p * 2 ^ Z.max 0 (- l) <? q * 2 ^ Z.max 0 l)%Z then (l - 1)%Z else l.

(** The integer nearest to [n/d], the even one of two that are as near. *)
Definition round_half_even (n d : Z) : Z :=
  let q := (n / d)%Z in
  match (2 * (n mod d) ?= d)%Z with
  | Lt => q
  | Gt => (q + 1)%Z
  | Eq => if Z.even q then q else (q + 1)%Z
  end.

(** The double nearest to [p/q], for positive [p] and [q]: the exponent is
    chosen so that the quotient has 53 bits (fewer below the normal range),
    and a quotient beyond the largest double becomes an infinity. *)
Definition nearest_double (negative : bool) (p q : Z) : double :=
  let e := Z.max (-1074) (floor_log2 p q - 52) in
  let m := round_half_even (p * 2 ^ Z.max 0 (- e)) (q * 2 ^ Z.max 0 e) in
  let '(m, e) := if (m =? 2 ^ 53)%Z then (2 ^ 52, e + 1)%Z else (m, e) in
  match m with
  | Zpos m => if (971 <? e)%Z then DInfinity negative else DFinite negative m e
  | _ => DZero negative
  end.

(** The double nearest to the decimal [s] x 10^[e10]. *)
Definition of_decimal (negative : bool) (s : N) (e10 : Z) : double :=
  if (s =? 0)%N then DZero negative
  else nearest_double negative (Z.of_N s * 10 ^ Z.max 0 e10) (10 ^ Z.max 0 (- e10)).

(** Decimal numerals of natural numbers. *)
Definition print_N (n : N) : string := NilZero.string_of_uint (N.to_uint n).

(** [decimal_exponent p q] is the [n] with 10^(n-1) <= p/q < 10^n, the
    number of digits before the decimal point: the logarithm to base 2,
    times 0.30103, places it within a few candidates, and the largest one
    that [p/q] reaches is taken. *)
Definition decimal_exponent (p q : Z) : Z :=
  let g := (floor_log2 p q * 30103 / 100000)%Z in
  let reaches n := (10 ^ Z.max 0 (n - 1) * q <=? p * 10 ^ Z.max 0 (1 - n))%Z in
  if reaches (g + 3)%Z then (g + 3)%Z
  else if reaches (g + 2)%Z then (g + 2)%Z
  else if reaches (g + 1)%Z then (g + 1)%Z
  else g.

(** The same decimal without trailing zeros. *)
Fixpoint strip_zeros (fuel : nat) (s e10 : Z) : Z * Z :=
  match fuel with
  | O => (s, e10)
  | S fuel => if (s mod 10 =? 0)%Z then strip_zeros fuel (s / 10)%Z (e10 + 1)%Z else (s, e10)
  end.

(** The decimals with [k] digits on either side of [p/q], the nearer one
    first (the even one when both are as near). *)
Definition candidates (p q n k : Z) : list (Z * Z) :=
  let a := (p * 10 ^ Z.max 0 (k - n))%Z in
  let b := (q * 10 ^ Z.max 0 (n - k))%Z in
  let lo := strip_zeros (Z.to_nat k) (a / b) (n - k) in
  let hi := strip_zeros (Z.to_nat k) (a / b + 1) (n - k) in
  match (2 * (a mod b) ?= b)%Z with
  | Lt => [lo; hi]
  | Gt => [hi; lo]
  | Eq => if Z.even (a / b) then [lo; hi] else [hi; lo]
  end.

(** [denotes x d]: the decimal [d] has the double [x] as its nearest double. *)
Definition denotes (x : double) (d : Z * Z) : bool :=
  double_eqb (of_decimal false (Z.to_N (fst d)) (snd d)) x.

(** The digits and the exponent that [Number::toString] prints for the
    double [m] x 2^[e]: the decimal with the fewest digits that denotes it,
    and among those the nearest.  Seventeen digits are always enough; the
    exact decimal expansion closes the definition without relying on that. *)
Definition shortest (m : positive) (e : Z) : N * Z :=
  let p := (Zpos m * 2 ^ Z.max 0 e)%Z in
  let q := (2 ^ Z.max 0 (- e))%Z in
  let n := decimal_exponent p q in
  match List.find (denotes (DFinite false m e))
                  (flat_map (candidates p q n) (map Z.of_nat (seq 1 17))) with
  | Some (s, e10) => (Z.to_N s, e10)
  | None => if (0 <=? e)%Z then (Z.to_N p, 0%Z) else ((Npos m * 5 ^ Z.to_N (- e))%N, e)
  end.

Fixpoint zeros (n : nat) : string :=
  match n with
  | O => ""
  | S n => String "0" (zeros n)
  end.

Fixpoint take (n : nat) (s : string) : string :=
  match n, s with
  | S n, String c rest => String c (take n rest)
  | _, _ => ""
  end.

Fixpoint drop (n : nat) (s : string) : string :=
  match n, s with
  | S n, String c rest => drop n rest
  | _, _ => s
  end.

(** The numeral of the decimal [s] x 10^[e10]: with [k] digits and
    [n = k + e10], plain digits when 0 < n <= 21, a leading [0.] when
    -6 < n <= 0, and exponent notation otherwise. *)
Definition numeral (s : N) (e10 : Z) : string :=
  let digits := print_N s in
  let k := Z.of_nat (String.length digits) in
  let n := (k + e10)%Z in
  if ((k <=? n) && (n <=? 21))%Z then digits ++ zeros (Z.to_nat (n - k))
  else if ((0 <? n) && (n <=? 21))%Z then
    take (Z.to_nat n) digits ++ "." ++ drop (Z.to_nat n) digits
  else if ((-6 <? n) && (n <=? 0))%Z then "0." ++ zeros (Z.to_nat (- n)) ++ digits
  else
    let exponent := (if (0 <=? n - 1)%Z then "+" else "-") ++ print_N (Z.abs_N (n - 1)) in
    if (k =? 1)%Z then digits ++ "e" ++ exponent
    else take 1 digits ++ "." ++ drop 1 digits ++ "e" ++ exponent.

(** [Number::toString(x)] in radix 10. *)
Definition Number_toString (x : double) : string :=
  match x with
  | DNaN => "NaN"
  | DInfinity negative => if negative then "-Infinity" else "Infinity"
  | DZero _ => "0"
  | DFinite negative m e =>
      let '(s, e10) := shortest m e in
      (if negative then "-" else "") ++ numeral s e10
  end.

(** The double of an integer. *)
Definition double_of_Z (z : Z) : double := of_decimal (z <? 0)%Z (Z.abs_N z) 0.

(** ** The host services the code calls

    [Utilities] and [JSON] belong to the platform, not to the repository.
    They are modelled here from their documented behaviour so that the
    functions that call them can be run.
    - Base64 is the URL-safe alphabet with padding; the decoder also takes
      text without padding.  Either function rejects [undefined].
    - A value handed to [JSON.stringify] is a tree of [null], booleans,
      numbers, strings, arrays and plain objects, or [undefined], which
      also stands for a function or a symbol: the three are serialized
      alike.  Objects with a [toJSON] method, big integers and cyclic
      structures are outside the model.
    - [JSON.parse] reads the whole JSON grammar.
    - The RSA signature is a parameter of the functions that use it. *)

Inductive json : Type :=
| JUndefined
| JNull
| JBool (b : bool)
| JNum (x : double)
| JStr (s : string)
| JArr (items : list json)
| JObj (members : list (string * json)).

(** The base64url text of the UTF-8 bytes of a string. *)
Definition base64url (data : string) : string :=
  base64_encode (list_ascii_of_string data).

Module Utilities.

(** A blob holds bytes. *)
Record Blob : Type := { bytes : list ascii }.

(** [Utilities.base64EncodeWebSafe(data)] for a byte array. *)
Definition base64EncodeWebSafe_bytes (data : list ascii) : string := base64_encode data.

(** [Utilities.base64EncodeWebSafe(data)] for a string: the bytes of its
    UTF-8 encoding are encoded.  The argument is [None] when the caller
    passes [undefined], which no signature of the method accepts. *)
Definition base64EncodeWebSafe (data : option string) : completion string :=
  match data with
  | None => Throw (TypeError "base64EncodeWebSafe: the argument is not a string")
  | Some s => Return (base64url s)
  end.

(** [Utilities.base64DecodeWebSafe(encoded)]; the argument is [None] when
    the caller passes [undefined]. *)
Definition base64DecodeWebSafe (encoded : option string) : completion (list ascii) :=
  match encoded with
  | None => Throw (TypeError "base64DecodeWebSafe: the argument is not a string")
  | Some s =>
      match base64_decode s with
      | Some data => Return data
      | None => Throw (Error "Could not decode string.")
      end
  end.

(** [Utilities.newBlob(data)] and [blob.getDataAsString()]: the bytes are
    read as UTF-8. *)
Definition newBlob (data : list ascii) : Blob := {| bytes := data |}.

Definition getDataAsString (blob : Blob) : string := string_of_list_ascii (bytes blob).

End Utilities.

Module JSON.

Definition dquote : ascii := "034"%char.
Definition backslash : ascii := "\"%char.

Fixpoint span_digits (s : string) : string * string :=
  match s with
  | EmptyString => (EmptyString, EmptyString)
  | String c rest =>
      if is_digit c
      then let '(digits, rest') := span_digits rest in (String c digits, rest')
      else (EmptyString, s)
  end.

Definition hex_lower (n : N) : ascii := char_at "0123456789abcdef" n.

Definition escape_char (c : ascii) : string :=
  if Ascii.eqb c dquote then String backslash (String dquote "")
  else if Ascii.eqb c backslash then String backslash (String backslash "")
  else if Ascii.eqb c "008" then "\b"
  else if Ascii.eqb c "012" then "\f"
  else if Ascii.eqb c "010" then "\n"
  else if Ascii.eqb c "013" then "\r"
  else if Ascii.eqb c "009" then "\t"
  else if (char_code c <? 32)%N
       then "\u00" ++ String (hex_lower (char_code c / 16)) (String (hex_lower (char_code c mod 16)) "")
       else String c "".

Fixpoint escape (s : string) : string :=
  match s with
  | EmptyString => EmptyString
  | String c rest => escape_char c ++ escape rest
  end.

Definition quote (s : string) : string := String dquote (escape s ++ String dquote "").

(** The text of a number: a finite number is printed by
    [Number::toString], NaN and the infinities become [null]. *)
Definition number_text (x : double) : string :=
  match x with
  | DNaN | DInfinity _ => "null"
  | _ => Number_toString x
  end.

(** [JSON.stringify(j)]: no white space, members in enumeration order.
    The result is [None] when [JSON.stringify] returns [undefined], which
    it does for [undefined] alone; an item of an array that is [undefined]
    is written [null], and a member of an object that is [undefined] is
    left out. *)
Fixpoint stringify (j : json) : option string :=
  match j with
  | JUndefined => None
  | JNull => Some "null"
  | JBool b => Some (if b then "true" else "false")
  | JNum x => Some (number_text x)
  | JStr s => Some (quote s)
  | JArr items =>
      Some ("[" ++ join ","
                     (map (fun item => match stringify item with
                                       | Some text => text
                                       | None => "null"
                                       end) items) ++ "]")
  | JObj members =>
      Some ("{" ++ join ","
                     ((fix members_text (l : list (string * json)) : list string :=
                         match l with
                         | [] => []
                         | (k, v) :: rest =>
                             match stringify v with
                             | Some text => (quote k ++ ":" ++ text) :: members_text rest
                             | None => members_text rest
                             end
                         end) members) ++ "}")
  end.

(** Parsing.  The functions return the value read and the rest of the
    text, or [None] on a syntax error. *)

Definition is_ws (c : ascii) : bool :=
  Ascii.eqb c " " || Ascii.eqb c "009" || Ascii.eqb c "010" || Ascii.eqb c "013".

Fixpoint skip_ws (s : string) : string :=
  match s with
  | EmptyString => EmptyString
  | String c rest => if is_ws c then skip_ws rest else s
  end.

(** The rest of [s] after the character [c], when [s] begins with it. *)
Definition closing (c : ascii) (s : string) : option string :=
  match s with
  | String c' rest => if Ascii.eqb c' c then Some rest else None
  | EmptyString => None
  end.

Definition hex_value (c : ascii) : option N :=
  if is_digit c then Some (char_code c - char_code "0")%N
  else if in_range "a" "f" c then Some (char_code c - char_code "a" + 10)%N
  else if in_range "A" "F" c then Some (char_code c - char_code "A" + 10)%N
  else None.

Definition hex4 (a b c d : ascii) : option N :=
  match hex_value a, hex_value b, hex_value c, hex_value d with
  | Some x, Some y, Some z, Some w => Some (((x * 16 + y) * 16 + z) * 16 + w)%N
  | _, _, _, _ => None
  end.

(** The UTF-8 bytes of a code point, for the escapes [\uXXXX]; a surrogate
    without its partner becomes U+FFFD, as when such a string is encoded. *)
Definition utf8_encode (cp : N) : string :=
  if (cp <? 128)%N then String (ascii_of_N cp) ""
  else if (cp <? 2048)%N then
    String (ascii_of_N (192 + cp / 64)) (String (ascii_of_N (128 + cp mod 64)) "")
  else if (cp <? 65536)%N then
    String (ascii_of_N (224 + cp / 4096))
      (String (ascii_of_N (128 + cp / 64 mod 64)) (String (ascii_of_N (128 + cp mod 64)) ""))
  else
    String (ascii_of_N (240 + cp / 262144))
      (String (ascii_of_N (128 + cp / 4096 mod 64))
         (String (ascii_of_N (128 + cp / 64 mod 64)) (String (ascii_of_N (128 + cp mod 64)) ""))).

Definition is_high_surrogate (u : N) : bool := ((55296 <=? u) && (u <? 56320))%N.
Definition is_low_surrogate (u : N) : bool := ((56320 <=? u) && (u <? 57344))%N.
Definition replacement_character : N := 65533.

Definition prepend (prefix : string) (r : option (string * string)) : option (string * string) :=
  match r with
  | Some (s, rest) => Some (prefix ++ s, rest)
  | None => None
  end.

Definition simple_escape (e : ascii) : option ascii :=
  if Ascii.eqb e dquote then Some dquote
  else if Ascii.eqb e backslash then Some backslash
  else if Ascii.eqb e "/" then Some "/"%char
  else if Ascii.eqb e "b" then Some "008"%char
  else if Ascii.eqb e "f" then Some "012"%char
  else if Ascii.eqb e "n" then Some "010"%char
  else if Ascii.eqb e "r" then Some "013"%char
  else if Ascii.eqb e "t" then Some "009"%char
  else None.

Fixpoint parse_string_body (s : string) : option (string * string) :=
  match s with
  | EmptyString => None
  | String c rest =>
      if Ascii.eqb c dquote then Some (EmptyString, rest)
      else if Ascii.eqb c backslash then
        match rest with
        | EmptyString => None
        | String e rest1 =>
            if Ascii.eqb e "u" then
              match rest1 with
              | String h1 (String h2 (String h3 (String h4 rest2))) =>
                  match hex4 h1 h2 h3 h4 with
                  | Some u =>
                      if is_high_surrogate u then
                        match rest2 with
                        | String b (String e' (String l1 (String l2 (String l3 (String l4 rest3))))) =>
                            match (if Ascii.eqb b backslash && Ascii.eqb e' "u"
                                   then hex4 l1 l2 l3 l4 else None) with
                            | Some lo =>
                                if is_low_surrogate lo
                                then prepend (utf8_encode (65536 + (u - 55296) * 1024 + (lo - 56320)))
                                             (parse_string_body rest3)
                                else prepend (utf8_encode replacement_character)
                                             (parse_string_body rest2)
                            | None => prepend (utf8_encode replacement_character)
                                              (parse_string_body rest2)
                            end
                        | _ => prepend (utf8_encode replacement_character) (parse_string_body rest2)
                        end
                      else if is_low_surrogate u
                      then prepend (utf8_encode replacement_character) (parse_string_body rest2)
                      else prepend (utf8_encode u) (parse_string_body rest2)
                  | None => None
                  end
              | _ => None
              end
            else
              match simple_escape e with
              | Some c' => prepend (String c' "") (parse_string_body rest1)
              | None => None
              end
        end
      else if (char_code c <? 32)%N then None
      else prepend (String c "") (parse_string_body rest)
  end.

(** An optional sign. *)
Definition parse_sign (s : string) : bool * string :=
  match closing "-" s with
  | Some rest => (true, rest)
  | None => (false, s)
  end.

(** Digits that begin with a zero and go on. *)
Definition leading_zero (digits : string) : bool :=
  match digits with
  | String c (String _ _) => Ascii.eqb c "0"
  | _ => false
  end.

(** The digits after a decimal point, when there is one. *)
Definition parse_fraction (s : string) : option (string * string) :=
  match closing "." s with
  | Some r =>
      let '(digits, rest) := span_digits r in
      if String.eqb digits "" then None else Some (digits, rest)
  | None => Some (EmptyString, s)
  end.

(** The exponent after [e] or [E], when there is one. *)
Definition parse_exponent (s : string) : option (Z * string) :=
  match s with
  | String c r =>
      if Ascii.eqb c "e" || Ascii.eqb c "E" then
        let '(negative, r1) :=
          match closing "+" r with
          | Some r' => (false, r')
          | None => parse_sign r
          end in
        let '(digits, rest) := span_digits r1 in
        match digits_value digits 0 with
        | Some n =>
            if String.eqb digits "" then None
            else Some (if negative then (- Z.of_N n)%Z else Z.of_N n, rest)
        | None => None
        end
      else Some (0%Z, s)
  | EmptyString => Some (0%Z, s)
  end.

(** A JSON number: an optional minus sign, digits without a leading zero,
    an optional fraction and an optional exponent; its value is the double
    nearest to the decimal. *)
Definition parse_number (s : string) : option (double * string) :=
  let '(negative, s1) := parse_sign s in
  let '(int, s2) := span_digits s1 in
  if String.eqb int "" || leading_zero int then None
  else
    match parse_fraction s2 with
    | Some (fraction, s3) =>
        match parse_exponent s3 with
        | Some (exponent, rest) =>
            match digits_value (int ++ fraction) 0 with
            | Some i =>
                Some (of_decimal negative i (exponent - Z.of_nat (String.length fraction)), rest)
            | None => None
            end
        | None => None
        end
    | None => None
    end.

(** Recursive descent; [fuel] bounds the number of nested calls, and one
    more than the length of the text is enough for every text. *)
Fixpoint parse_value (fuel : nat) (s : string) : option (json * string) :=
  match fuel with
  | O => None
  | S fuel =>
      match skip_ws s with
      | EmptyString => None
      | String c rest =>
          if is_digit c || Ascii.eqb c "-" then
            match parse_number (String c rest) with
            | Some (x, rest') => Some (JNum x, rest')
            | None => None
            end
          else if Ascii.eqb c dquote then
            match parse_string_body rest with
            | Some (str, rest') => Some (JStr str, rest')
            | None => None
            end
          else
            match c, rest with
            | "n"%char, String "u" (String "l" (String "l" rest')) => Some (JNull, rest')
            | "t"%char, String "r" (String "u" (String "e" rest')) => Some (JBool true, rest')
            | "f"%char, String "a" (String "l" (String "s" (String "e" rest'))) =>
                Some (JBool false, rest')
            | "["%char, _ =>
                match closing "]" (skip_ws rest) with
                | Some rest' => Some (JArr [], rest')
                | None =>
                    match parse_elements fuel rest with
                    | Some (items, rest') => Some (JArr items, rest')
                    | None => None
                    end
                end
            | "{"%char, _ =>
                match closing "}" (skip_ws rest) with
                | Some rest' => Some (JObj [], rest')
                | None =>
                    match parse_members fuel rest with
                    | Some (members, rest') => Some (JObj (obj_define_all [] members), rest')
                    | None => None
                    end
                end
            | _, _ => None
            end
      end
  end
with parse_elements (fuel : nat) (s : string) : option (list json * string) :=
  match fuel with
  | O => None
  | S fuel =>
      match parse_value fuel s with
      | Some (item, rest) =>
          match skip_ws rest with
          | String "," rest' =>
              match parse_elements fuel rest' with
              | Some (items, rest'') => Some (item :: items, rest'')
              | None => None
              end
          | String "]" rest' => Some ([item], rest')
          | _ => None
          end
      | None => None
      end
  end
with parse_members (fuel : nat) (s : string) : option (list (string * json) * string) :=
  match fuel with
  | O => None
  | S fuel =>
      match skip_ws s with
      | String q rest =>
          if Ascii.eqb q dquote then
            match parse_string_body rest with
            | Some (key, rest1) =>
                match skip_ws rest1 with
                | String ":" rest2 =>
                    match parse_value fuel rest2 with
                    | Some (v, rest3) =>
                        match skip_ws rest3 with
                        | String "," rest4 =>
                            match parse_members fuel rest4 with
                            | Some (members, rest5) => Some ((key, v) :: members, rest5)
                            | None => None
                            end
                        | String "}" rest4 => Some ([(key, v)], rest4)
                        | _ => None
                        end
                    | None => None
                    end
                | _ => None
                end
            | None => None
            end
          else None
      | EmptyString => None
      end
  end.

(** [JSON.parse(text)] *)
Definition parse (text : string) : completion json :=
  match parse_value (S (String.length text)) text with
  | Some (v, rest) =>
      match skip_ws rest with
      | EmptyString => Return v
      | _ => Throw (SyntaxError "Unexpected token after JSON")
      end
  | None => Throw (SyntaxError "Unexpected token in JSON")
  end.

End JSON.

(** The representation invariant of a value: the members of every object
    have distinct keys, in enumeration order, and every number is a
    double. *)
Fixpoint well_formed (j : json) : bool :=
  match j with
  | JNum x => valid_double x
  | JArr items => forallb well_formed items
  | JObj members =>
      in_order members && forallb (fun kv => well_formed (snd kv)) members
  | _ => true
  end.

(** [serializable j]: the value is JSON data.  It holds no [undefined]
    (nor a function or a symbol), no NaN and no infinity, which
    [JSON.stringify] leaves out or writes as [null], and no negative zero,
    which it writes as [0]. *)
Fixpoint serializable (j : json) : bool :=
  match j with
  | JUndefined => false
  | JNum (DFinite _ _ _) => true
  | JNum (DZero negative) => negb negative
  | JNum _ => false
  | JArr items => forallb serializable items
  | JObj members => forallb (fun kv => serializable (snd kv)) members
  | _ => true
  end.

(** ** encodeJwt_ and decodeJwt_ *)

(** [customOptions]: both properties are optional; [computeJWTSignature]
    is [Some f] when it holds a function. *)
Record Options : Type := {
  header : option (list (string * json));
  computeJWTSignature : option (string -> string -> string)
}.

Section Jwt.
(** [Utilities.computeRsaSha256Signature(value, key)], the RSA signature
    of the host; it returns bytes. *)
Variable computeRsaSha256Signature : string -> string -> list ascii.

Definition computeJWTSignatureDefault_ (toSign key : string) : string :=
  let signatureBytes := computeRsaSha256Signature toSign key in
  Utilities.base64EncodeWebSafe_bytes signatureBytes.

Definition encodeJwt_ (payload : json) (key : string) (customOptions : option Options)
  : completion string :=
  let customOptions :=
    match customOptions with
    | Some options => options
    | None => {| header := None; computeJWTSignature := None |}
    end in
  let header :=
    Object_assign [("alg", JStr "RS256"); ("typ", JStr "JWT")]
                  (match header customOptions with Some h => h | None => [] end) in
  let computeJWTSignature :=
    match computeJWTSignature customOptions with
    | Some f => f
    | None => computeJWTSignatureDefault_
    end in
  let* header64 := Utilities.base64EncodeWebSafe (JSON.stringify (JObj header)) in
  let* payload64 := Utilities.base64EncodeWebSafe (JSON.stringify payload) in
  let toSign := header64 ++ "." ++ payload64 in
  let signature := computeJWTSignature toSign key in
  Return (toSign ++ "." ++ signature).

(** The header that [encodeJwt_] serializes. *)
Definition merged_header (customOptions : option Options) : list (string * json) :=
  Object_assign [("alg", JStr "RS256"); ("typ", JStr "JWT")]
    (match customOptions with
     | Some {| header := Some h |} => h
     | _ => []
     end).

(** The signing function that [encodeJwt_] applies. *)
Definition signer (customOptions : option Options) : string -> string -> string :=
  match customOptions with
  | Some {| computeJWTSignature := Some f |} => f
  | _ => computeJWTSignatureDefault_
  end.
End Jwt.

Definition decodeJwt_ (jwt : string) : completion json :=
  let payload := nth_error (split "." jwt) 1 in
  let* data := Utilities.base64DecodeWebSafe payload in
  let blob := Utilities.newBlob data in
  JSON.parse (Utilities.getDataAsString blob).

(** [decode_segment segment]: what [decodeJwt_] does with the segment it
    has selected. *)
Definition decode_segment (segment : string) : completion json :=
  let* data := Utilities.base64DecodeWebSafe (Some segment) in
  let blob := Utilities.newBlob data in
  JSON.parse (Utilities.getDataAsString blob).

(** ** Notions used in the statements *)

(** A character test lifted to strings. *)
Definition dot_free (s : string) : bool :=
  forallb (fun c => negb (Ascii.eqb c ".")) (list_ascii_of_string s).

(** What may follow a number: the end of the text or a character that does
    not continue a numeral. *)
Definition delimited (rest : string) : bool :=
  match rest with
  | EmptyString => true
  | String c _ =>
      negb (is_digit c || Ascii.eqb c "." || Ascii.eqb c "e" || Ascii.eqb c "E")
  end.

Definition starts_without_digit (rest : string) : bool :=
  match rest with
  | EmptyString => true
  | String c _ => negb (is_digit c)
  end.

Definition all_digits (s : string) : bool := forallb is_digit (list_ascii_of_string s).

(** The value of the digits of a decimal numeral of the library. *)
Fixpoint uint_value (d : Decimal.uint) (acc : N) : N :=
  match d with
  | Decimal.Nil => acc
  | Decimal.D0 d => uint_value d (10 * acc)
  | Decimal.D1 d => uint_value d (10 * acc + 1)
  | Decimal.D2 d => uint_value d (10 * acc + 2)
  | Decimal.D3 d => uint_value d (10 * acc + 3)
  | Decimal.D4 d => uint_value d (10 * acc + 4)
  | Decimal.D5 d => uint_value d (10 * acc + 5)
  | Decimal.D6 d => uint_value d (10 * acc + 6)
  | Decimal.D7 d => uint_value d (10 * acc + 7)
  | Decimal.D8 d => uint_value d (10 * acc + 8)
  | Decimal.D9 d => uint_value d (10 * acc + 9)
  end%N.

(** The parts of a numeral after its integral digits. *)
Definition fraction_text (fraction : string) : string :=
  if String.eqb fraction "" then "" else "." ++ fraction.

Definition exponent_text (exponent : option Z) : string :=
  match exponent with
  | None => ""
  | Some z => "e" ++ (if (0 <=? z)%Z then "+" else "-") ++ print_N (Z.abs_N z)
  end.

(** The text of a value where [JSON.stringify] has one, and [null]
    otherwise: what is written for the value as an item of an array. *)
Definition text (j : json) : string :=
  match JSON.stringify j with
  | Some t => t
  | None => "null"
  end.

(** The text of one member of an object. *)
Definition member_text (kv : string * json) : string :=
  let '(k, v) := kv in JSON.quote k ++ ":" ++ text v.

(** [parses_back j]: the text of [j], followed by anything that cannot
    continue a number, is read back as [j], with the rest left over. *)
Definition parses_back (j : json) : Prop :=
  forall (fuel : nat) (rest : string),
    (String.length (text j) < fuel)%nat ->
    delimited rest = true ->
    JSON.parse_value fuel (text j ++ rest) = Some (j, rest).

(** A signing function for the examples: it is not base64 and holds a dot. *)
Definition example_signer (toSign key : string) : string := "signed." ++ key.

Definition example_payload : json :=
  JObj [("iss", JStr "me@x.com"); ("exp", JNum (double_of_Z 1700000000));
        ("iat", JNum (of_decimal false 16999964005 (-1)));
        ("aud", JArr [JStr "a"; JNull; JBool false; JNum (double_of_Z (-3))])].

Definition example_options : Options :=
  {| header := Some [("kid", JStr "k1"); ("alg", JStr "none")];
     computeJWTSignature := Some example_signer |}.

(** ** Notions used in the further properties *)

(** [lacks c s]: the character [c] does not occur in [s]. *)
Definition lacks (c : ascii) (s : string) : bool :=
  forallb (fun x => negb (Ascii.eqb x c)) (list_ascii_of_string s).

(** The text that [buildUrl_] emits for one parameter. *)
Definition pair_text (kv : string * string) : string :=
  encodeURIComponent (fst kv) ++ "=" ++ encodeURIComponent (snd kv).

(** The separator that [buildUrl_] puts after the base URL. *)
Definition separator (url : string) : string :=
  if existsb (Ascii.eqb "?") (list_ascii_of_string url) then "&" else "?".

(* ===================================================================== *)
(** * Part II: properties                                                 *)
(* ===================================================================== *)

(** ** Strings *)

Lemma append_empty_r (s : string) : s ++ "" = s.
Proof. induction s as [|c s IH]; simpl; [reflexivity | now rewrite IH]. Qed.

Lemma append_assoc (a b c : string) : (a ++ b) ++ c = a ++ (b ++ c).
Proof. induction a as [|x a IH]; simpl; [reflexivity | now rewrite IH]. Qed.

Lemma length_append (a b : string) :
  String.length (a ++ b) = (String.length a + String.length b)%nat.
Proof. induction a as [|x a IH]; simpl; [reflexivity | now rewrite IH]. Qed.

(** [indexOf] of a one-character pattern is non-negative exactly when the
    character occurs. *)
Lemma index_char (c : ascii) (s : string) :
  String.index 0 (String c "") s = None <->
  existsb (Ascii.eqb c) (list_ascii_of_string s) = false.
Proof.
  induction s as [|x s IH]; simpl; [tauto |].
  rewrite (Ascii.eqb_sym c x).
  destruct (Ascii.eqb_spec x c) as [-> | Hne].
  - destruct (ascii_dec c c) as [_ | Hcc]; [| congruence].
    destruct s; simpl; split; discriminate.
  - destruct (ascii_dec c x) as [Heq | _]; [congruence |].
    simpl. destruct (String.index 0 (String c "") s) eqn:E.
    + split; [discriminate |]. intros H. apply IH in H. discriminate.
    + split; [intros _; now apply IH | reflexivity].
Qed.

Lemma indexOf_char (c : ascii) (s : string) :
  (0 <=? indexOf s (String c ""))%Z = existsb (Ascii.eqb c) (list_ascii_of_string s).
Proof.
  unfold indexOf. destruct (String.index 0 (String c "") s) eqn:E.
  - destruct (existsb (Ascii.eqb c) (list_ascii_of_string s)) eqn:E'.
    + apply Z.leb_le. lia.
    + apply index_char in E'. congruence.
  - apply index_char in E. now rewrite E.
Qed.

(** ** Property lists *)

Section PropertyListFacts.
Context {V : Type}.
Implicit Types (o : list (string * V)) (k : string) (v : V).

Lemma obj_lookup_keys o k :
  obj_lookup o k = None <-> ~ In k (Object_keys o).
Proof.
  induction o as [|[k' v'] o IH]; simpl; [tauto |].
  destruct (String.eqb_spec k' k) as [-> | Hne].
  - split; [discriminate | intros H; exfalso; apply H; now left].
  - rewrite IH. split; [intros H [Heq | Hin]; [congruence | tauto] | tauto].
Qed.

(** With distinct keys, looking up the key of an entry yields its value. *)
Lemma obj_lookup_entry (pre post : list (string * V)) k v :
  ~ In k (Object_keys pre) ->
  obj_lookup (pre ++ (k, v) :: post)%list k = Some v.
Proof.
  induction pre as [|[k' v'] pre IH]; simpl; intros Hnin.
  - now rewrite String.eqb_refl.
  - destruct (String.eqb_spec k' k) as [-> | Hne]; [tauto | apply IH; tauto].
Qed.

Lemma obj_lookup_replace o k v k' :
  obj_lookup (obj_replace k v o) k' =
  if String.eqb k k'
  then match obj_lookup o k with Some _ => Some v | None => None end
  else obj_lookup o k'.
Proof.
  induction o as [|[k0 v0] o IH]; simpl.
  - now destruct (String.eqb k k').
  - destruct (String.eqb_spec k0 k) as [-> | Hne]; simpl.
    + now destruct (String.eqb_spec k k').
    + destruct (String.eqb_spec k0 k') as [-> | Hne'].
      * destruct (String.eqb_spec k k'); [congruence | reflexivity].
      * apply IH.
Qed.

Lemma obj_lookup_create o k v k' :
  obj_lookup o k = None ->
  obj_lookup (obj_create k v o) k' =
  if String.eqb k k' then Some v else obj_lookup o k'.
Proof.
  induction o as [|[k0 v0] o IH]; simpl; intros Hk.
  - reflexivity.
  - destruct (String.eqb_spec k0 k) as [-> | Hne]; [discriminate |].
    destruct (precedes k k0); simpl.
    + destruct (String.eqb_spec k k'); [reflexivity |].
      reflexivity.
    + destruct (String.eqb_spec k0 k') as [-> | Hne'].
      * destruct (String.eqb_spec k k'); [congruence | reflexivity].
      * now apply IH.
Qed.

(** Reading after [CreateDataProperty]. *)
Lemma obj_lookup_define o k v k' :
  obj_lookup (obj_define k v o) k' =
  if String.eqb k k' then Some v else obj_lookup o k'.
Proof.
  unfold obj_define. destruct (obj_lookup o k) eqn:E.
  - rewrite obj_lookup_replace, E. reflexivity.
  - now apply obj_lookup_create.
Qed.

(** Reading after [o[k] = v]. *)
Lemma obj_lookup_set o k v k' :
  obj_lookup (obj_set k v o) k' =
  if reaches_setter o k then obj_lookup o k'
  else if String.eqb k k' then Some v else obj_lookup o k'.
Proof.
  unfold obj_set. destruct (reaches_setter o k); [reflexivity | apply obj_lookup_define].
Qed.

(** A key that reaches the setter is not an own property. *)
Lemma reaches_setter_lookup o k : reaches_setter o k = true -> obj_lookup o k = None.
Proof.
  unfold reaches_setter. intros H. apply andb_prop in H as [_ H].
  now destruct (obj_lookup o k).
Qed.

Lemma reaches_setter_other o k : k <> "__proto__" -> reaches_setter o k = false.
Proof.
  intros H. unfold reaches_setter. apply String.eqb_neq in H. now rewrite H.
Qed.

(** An assignment does not change which assignments reach the setter. *)
Lemma reaches_setter_set o k v k' :
  reaches_setter (obj_set k v o) k' = reaches_setter o k'.
Proof.
  destruct (String.eqb_spec k' "__proto__") as [-> | Hk'];
    [| now rewrite !reaches_setter_other].
  unfold reaches_setter at 1. rewrite obj_lookup_set.
  destruct (reaches_setter o k) eqn:E; [reflexivity |].
  destruct (String.eqb_spec k "__proto__") as [-> | _]; [| reflexivity].
  rewrite E. reflexivity.
Qed.
End PropertyListFacts.

(** With distinct keys, reading [o[key]] for each [key] of [Object.keys(o)]
    visits the entries of [o] in order. *)
Lemma map_keys_entries {V A : Type} (f : string -> option V -> A) (o : list (string * V)) :
  List.NoDup (Object_keys o) ->
  map (fun k => f k (obj_lookup o k)) (Object_keys o) =
  map (fun kv => f (fst kv) (Some (snd kv))) o.
Proof.
  induction o as [|[k v] o IH]; simpl; intros Hnd; [reflexivity |].
  inversion Hnd as [|? ? Hnin Hnd']; subst.
  rewrite String.eqb_refl. f_equal.
  rewrite <- IH by assumption.
  apply map_ext_in. intros k' Hin.
  destruct (String.eqb_spec k k') as [-> | _]; [contradiction | reflexivity].
Qed.

(** ** buildUrl_ *)

Lemma percent_encode_safe (c : ascii) :
  forallb uri_safe (list_ascii_of_string (percent_encode c)) = true.
Proof. destruct c as [[] [] [] [] [] [] [] []]; reflexivity. Qed.

Lemma list_ascii_of_append (a b : string) :
  list_ascii_of_string (a ++ b) = (list_ascii_of_string a ++ list_ascii_of_string b)%list.
Proof. induction a as [|x a IH]; simpl; [reflexivity | now rewrite IH]. Qed.

Lemma encodeURIComponent_safe (s : string) :
  forallb uri_safe (list_ascii_of_string (encodeURIComponent s)) = true.
Proof.
  induction s as [|c s IH]; [reflexivity |].
  cbn [encodeURIComponent]. rewrite list_ascii_of_append, forallb_app, IH, andb_true_r.
  destruct (uri_unreserved c) eqn:E.
  - simpl. unfold uri_safe. now rewrite E.
  - apply percent_encode_safe.
Qed.

(** C4.  [buildUrl_] returns the base URL, then ["&"] when the base URL
    contains a question mark and ["?"] otherwise, then the parameters as
    [key=value] pairs with both sides percent-encoded, joined with ["&"];
    the encoded sides consist of unreserved characters and percent escapes
    only.  The two examples of the specification evaluate as stated. *)
Theorem buildUrl_query_string :
  (forall (url : string) (params : list (string * string)),
      List.NoDup (Object_keys params) ->
      buildUrl_ url params =
      url ++ (if existsb (Ascii.eqb "?") (list_ascii_of_string url) then "&" else "?")
          ++ join "&" (map (fun kv => encodeURIComponent (fst kv) ++ "=" ++
                                      encodeURIComponent (snd kv)) params))
  /\ (forall s, forallb uri_safe (list_ascii_of_string (encodeURIComponent s)) = true)
  /\ buildUrl_ "https://x.com/a" [("p", "1 2")] = "https://x.com/a?p=1%202"
  /\ buildUrl_ "https://x.com/a?x=1" [("p", "v")] = "https://x.com/a?x=1&p=v".
Proof.
  split; [| split; [exact encodeURIComponent_safe | split; reflexivity]].
  intros url params Hnd. unfold buildUrl_, param.
  rewrite indexOf_char. do 3 f_equal.
  apply (map_keys_entries
           (fun k ov => encodeURIComponent k ++ "=" ++
                        encodeURIComponent (match ov with Some v => v | None => "undefined" end))).
  exact Hnd.
Qed.

Lemma buildUrl_query_string_witness :
  buildUrl_ "https://x.com/a?x=1" [("a b", "1&2"); ("c", "d")] =
  "https://x.com/a?x=1&a%20b=1%262&c=d".
Proof.
  rewrite (proj1 buildUrl_query_string "https://x.com/a?x=1" [("a b", "1&2"); ("c", "d")]).
  - reflexivity.
  - repeat constructor; simpl; intuition discriminate.
Defined.

(** C10.  With no parameters [buildUrl_] does not return the base URL: it
    returns the base URL followed by the separator alone, ["&"] when the
    base URL contains a question mark and ["?"] otherwise. *)
Theorem buildUrl_empty_params (url : string) :
  buildUrl_ url [] =
  url ++ (if existsb (Ascii.eqb "?") (list_ascii_of_string url) then "&" else "?")
  /\ buildUrl_ url [] <> url.
Proof.
  assert (H : buildUrl_ url [] =
              url ++ (if existsb (Ascii.eqb "?") (list_ascii_of_string url) then "&" else "?")).
  { unfold buildUrl_. rewrite indexOf_char. simpl join.
    now rewrite append_empty_r. }
  split; [exact H |].
  rewrite H. intros Heq. apply (f_equal String.length) in Heq.
  rewrite length_append in Heq.
  destruct (existsb (Ascii.eqb "?") (list_ascii_of_string url)); simpl in Heq; lia.
Qed.

(** ** getTimeInSeconds_ *)

Lemma getTimeInSeconds_floor (ms : Z) :
  getTimeInSeconds_ {| getTime := TimeMs ms |} = of_Z (ms / 1000).
Proof.
  unfold getTimeInSeconds_. simpl getTime. f_equal.
  unfold Qround.Qfloor, QArith_base.Qdiv, QArith_base.Qmult, QArith_base.Qinv,
    QArith_base.inject_Z. simpl.
  now rewrite Z.mul_1_r.
Qed.

Lemma of_Z_inj (a b : Z) : of_Z a = of_Z b -> a = b.
Proof. unfold of_Z, QArith_base.inject_Z. congruence. Qed.

(** C5, as stated, fails before the epoch: 1.5 seconds before the epoch
    the function returns -2, while truncation toward zero gives -1. *)
Lemma getTimeInSeconds_not_truncation :
  getTimeInSeconds_ {| getTime := TimeMs (-1500) |} = of_Z (-2)
  /\ getTimeInSeconds_ {| getTime := TimeMs (-1500) |} <> of_Z (Z.quot (-1500) 1000).
Proof.
  split; [reflexivity |].
  rewrite getTimeInSeconds_floor. intros H. apply of_Z_inj in H. discriminate.
Qed.

(** C5, amended.  For a date with time value [ms], [getTimeInSeconds_]
    returns the integer [s] with [1000 s <= ms < 1000 (s + 1)], the quotient
    rounded toward negative infinity; at or after the epoch this is the
    quotient truncated toward zero.  The function is total: on an invalid
    date it returns NaN. *)
Theorem getTimeInSeconds_rounds_down :
  (forall ms : Z,
      exists s : Z,
        getTimeInSeconds_ {| getTime := TimeMs ms |} = of_Z s
        /\ (1000 * s <= ms < 1000 * (s + 1))%Z)
  /\ (forall n : N,
        getTimeInSeconds_ {| getTime := TimeMs (Z.of_N n) |} = of_Z (Z.quot (Z.of_N n) 1000))
  /\ getTimeInSeconds_ {| getTime := TimeNaN |} = NaN.
Proof.
  split; [| split; [| reflexivity]].
  - intros ms. exists (ms / 1000)%Z. split; [apply getTimeInSeconds_floor |].
    pose proof (Z.mod_pos_bound ms 1000 ltac:(lia)).
    pose proof (Z.div_mod ms 1000 ltac:(lia)). lia.
  - intros n. rewrite getTimeInSeconds_floor. f_equal.
    symmetry. apply Z.quot_div_nonneg; lia.
Qed.

Lemma number_leb_of_Z (a b : Z) : number_leb (of_Z a) (of_Z b) = (a <=? b)%Z.
Proof.
  unfold of_Z, number_leb, QArith_base.Qle_bool, QArith_base.inject_Z. simpl.
  now rewrite !Z.mul_1_r.
Qed.

(** C6.  When the time value of [d1] is at most the time value of [d2]
    (which excludes invalid dates), [getTimeInSeconds_ d1] is at most
    [getTimeInSeconds_ d2].  The part of a time value below a second is
    dropped, before the epoch as well as after it: a time value of [s]
    seconds and [r] milliseconds, [0 <= r < 1000], yields [s]; so 1500
    milliseconds yield 1, and 1500 milliseconds before the epoch yield
    -2. *)
Theorem getTimeInSeconds_monotonic :
  (forall d1 d2 : Date,
      number_leb (time_number (getTime d1)) (time_number (getTime d2)) = true ->
      number_leb (getTimeInSeconds_ d1) (getTimeInSeconds_ d2) = true)
  /\ (forall s r : Z,
        (0 <= r < 1000)%Z ->
        getTimeInSeconds_ {| getTime := TimeMs (1000 * s + r) |} = of_Z s)
  /\ getTimeInSeconds_ {| getTime := TimeMs 1500 |} = of_Z 1
  /\ getTimeInSeconds_ {| getTime := TimeMs (-1500) |} = of_Z (-2).
Proof.
  split; [| split; [| split; reflexivity]].
  - intros [[| ms1]] [[| ms2]]; cbn [getTime time_number]; try discriminate.
    rewrite !getTimeInSeconds_floor, !number_leb_of_Z. intros Hle.
    apply Z.leb_le in Hle. apply Z.leb_le. apply Z.div_le_mono; lia.
  - intros s r Hr. rewrite getTimeInSeconds_floor. f_equal.
    symmetry. apply (Z.div_unique _ _ _ r); lia.
Qed.

Lemma getTimeInSeconds_monotonic_witness :
  number_leb (getTimeInSeconds_ {| getTime := TimeMs (-1500) |})
             (getTimeInSeconds_ {| getTime := TimeMs 999 |}) = true
  /\ getTimeInSeconds_ {| getTime := TimeMs (1000 * (-2) + 500) |} = of_Z (-2)
  /\ getTimeInSeconds_ {| getTime := TimeMs (1000 * 1 + 500) |} = of_Z 1.
Proof.
  split; [| split].
  - apply (proj1 getTimeInSeconds_monotonic {| getTime := TimeMs (-1500) |}
                 {| getTime := TimeMs 999 |}).
    reflexivity.
  - apply (proj1 (proj2 getTimeInSeconds_monotonic) (-2)%Z 500%Z). lia.
  - apply (proj1 (proj2 getTimeInSeconds_monotonic) 1%Z 500%Z). lia.
Defined.

(** ** validate_ *)

Lemma forEach_map {A B} (f : A -> B) (l : list A) (callback : B -> completion unit) :
  forEach (map f l) callback = forEach l (fun x => callback (f x)).
Proof. induction l as [|x l IH]; simpl; [reflexivity | now rewrite IH]. Qed.

Lemma forEach_ext_in {A} (l : list A) (f g : A -> completion unit) :
  (forall x, In x l -> f x = g x) -> forEach l f = forEach l g.
Proof.
  induction l as [|x l IH]; simpl; intros H; [reflexivity |].
  rewrite (H x) by now left. rewrite IH; [reflexivity |].
  intros y Hy. apply H. now right.
Qed.

Lemma forEach_app {A} (l1 l2 : list A) (f : A -> completion unit) :
  forEach (l1 ++ l2)%list f = let* _ := forEach l1 f in forEach l2 f.
Proof.
  induction l1 as [|x l1 IH]; simpl; [reflexivity |].
  destruct (f x) as [[] | e]; simpl; [exact IH | reflexivity].
Qed.

Lemma obj_lookup_In {V} (o : list (string * V)) (k : string) (v : V) :
  List.NoDup (Object_keys o) -> In (k, v) o -> obj_lookup o k = Some v.
Proof.
  intros Hnd Hin. apply in_split in Hin as (pre & post & ->).
  apply obj_lookup_entry.
  unfold Object_keys in Hnd. rewrite map_app in Hnd. simpl in Hnd.
  apply NoDup_remove_2 in Hnd. intros Hk. apply Hnd, in_or_app. now left.
Qed.

Lemma validate_entries (params : list (string * value)) :
  List.NoDup (Object_keys params) ->
  validate_ params = forEach params check_entry.
Proof.
  intros Hnd. unfold validate_, Object_keys. rewrite forEach_map.
  apply forEach_ext_in. intros [k v] Hin. unfold check_entry, obj_get. simpl.
  now rewrite (obj_lookup_In params k v Hnd Hin).
Qed.

Lemma obj_get_truthy (params : list (string * value)) (k : string) :
  forallb (fun kv => ToBoolean (snd kv)) params = true ->
  In k (Object_keys params) ->
  ToBoolean (obj_get params k) = true.
Proof.
  unfold obj_get.
  induction params as [|[k' v'] params IH]; cbn [forallb Object_keys map In obj_lookup fst snd];
    [contradiction |].
  intros H Hin. apply andb_prop in H as [Hv Hrest].
  destruct (String.eqb_spec k' k) as [-> | Hne]; [exact Hv |].
  apply IH; [exact Hrest |]. destruct Hin; [contradiction | assumption].
Qed.

Lemma forEach_all_truthy (params : list (string * value)) :
  forallb (fun kv => ToBoolean (snd kv)) params = true ->
  forEach params check_entry = Return tt.
Proof.
  induction params as [|[k v] params IH]; simpl; [reflexivity |].
  intros H. apply andb_prop in H as [Hv Hrest].
  unfold check_entry at 1. simpl. rewrite Hv. simpl. now apply IH.
Qed.

(** C3.  On a map without falsy values [validate_] returns normally.  On a
    map with a falsy value it throws one error, whose message is the first
    key with a falsy value, in iteration order, followed by
    [" is required."].  The empty string, [null], [undefined], zero and
    [false] are falsy. *)
Theorem validate_first_falsy_key :
  (forall params : list (string * value),
      forallb (fun kv => ToBoolean (snd kv)) params = true ->
      validate_ params = Return tt)
  /\ (forall (pre post : list (string * value)) (k : string) (v : value),
        List.NoDup (Object_keys (pre ++ (k, v) :: post)%list) ->
        forallb (fun kv => ToBoolean (snd kv)) pre = true ->
        ToBoolean v = false ->
        validate_ (pre ++ (k, v) :: post)%list = Throw (Error (k ++ " is required.")))
  /\ ToBoolean (VStr "") = false
  /\ ToBoolean VNull = false
  /\ ToBoolean VUndefined = false
  /\ ToBoolean (VNum (of_Z 0)) = false
  /\ ToBoolean (VBool false) = false.
Proof.
  split; [| split; [| repeat split]].
  - intros params Hall. unfold validate_.
    rewrite (forEach_ext_in _ _ (fun _ => Return tt)).
    + clear Hall. induction (Object_keys params) as [|k keys IH]; [reflexivity | exact IH].
    + intros k Hin. now rewrite (obj_get_truthy params k Hall Hin).
  - intros pre post k v Hnd Hpre Hv. rewrite validate_entries by assumption.
    rewrite forEach_app, forEach_all_truthy by assumption. simpl.
    unfold check_entry at 1. simpl. now rewrite Hv.
Qed.

Lemma validate_first_falsy_key_witness :
  validate_ [("client_id", VStr "abc"); ("scope", VObject 3)] = Return tt
  /\ validate_ ([("client_id", VStr "abc")] ++
                ("token_url", VStr "") :: [("scope", VNull); ("state", VNum (of_Z 7))])%list
     = Throw (Error "token_url is required.").
Proof.
  split.
  - apply (proj1 validate_first_falsy_key). reflexivity.
  - apply (proj1 (proj2 validate_first_falsy_key)
             [("client_id", VStr "abc")] [("scope", VNull); ("state", VNum (of_Z 7))]
             "token_url" (VStr "")).
    + repeat constructor; simpl; intuition discriminate.
    + reflexivity.
    + reflexivity.
Defined.

(** ** The store *)

Lemma props_heap_set (h : heap) (l l' : loc) (k : string) (v : value) :
  props (heap_set l k v h) l' =
  if Nat.eqb l l' then obj_set k v (props h l) else props h l'.
Proof.
  unfold heap_set, props at 1. destruct (Nat.eqb_spec l l') as [-> | Hne].
  - now rewrite lookup_insert_eq.
  - rewrite lookup_insert_ne by exact Hne. reflexivity.
Qed.

Lemma delete_heap_set (h : heap) (l : loc) (k : string) (v : value) :
  delete l (heap_set l k v h) = delete l h.
Proof. unfold heap_set. apply delete_insert_eq. Qed.

Lemma obj_get_set (o : list (string * value)) (k k' : string) (v : value) :
  obj_get (obj_set k v o) k' =
  if reaches_setter o k then obj_get o k'
  else if String.eqb k k' then v else obj_get o k'.
Proof.
  unfold obj_get. rewrite obj_lookup_set.
  destruct (reaches_setter o k); [reflexivity | now destruct (String.eqb k k')].
Qed.

Lemma existsb_keys {V} (o : list (string * V)) (k : string) :
  existsb (String.eqb k) (Object_keys o) =
  match obj_lookup o k with Some _ => true | None => false end.
Proof.
  induction o as [|[k' v] o IH]; simpl; [reflexivity |].
  rewrite (String.eqb_sym k k'). now destruct (String.eqb k' k).
Qed.

(** ** extend_ *)

(** Writing to the destination a value just read from the source does not
    change what the source reads, also when both are the same object. *)
Lemma source_unchanged (h : heap) (destination source : loc) (key k : string) :
  obj_get (props (heap_set destination key (heap_get h source key) h) source) k =
  obj_get (props h source) k.
Proof.
  rewrite props_heap_set. destruct (Nat.eqb_spec destination source) as [-> | _]; [| reflexivity].
  rewrite obj_get_set. unfold heap_get.
  destruct (reaches_setter (props h source) key); [reflexivity |].
  now destruct (String.eqb_spec key k) as [-> | _].
Qed.

Lemma extend_loop_lookup (destination source : loc) (keys : list string) :
  forall (h : heap) (k : string),
    obj_lookup (props (extend_loop destination source keys h) destination) k =
    if existsb (String.eqb k) keys && negb (reaches_setter (props h destination) k)
    then Some (obj_get (props h source) k)
    else obj_lookup (props h destination) k.
Proof.
  induction keys as [|key keys IH]; intros h k; simpl; [reflexivity |].
  rewrite IH, source_unchanged, props_heap_set, Nat.eqb_refl, reaches_setter_set, obj_lookup_set.
  rewrite (String.eqb_sym k key).
  destruct (reaches_setter (props h destination) k) eqn:Ek.
  - rewrite !andb_false_r.
    destruct (reaches_setter (props h destination) key) eqn:Ekey; [reflexivity |].
    destruct (String.eqb_spec key k) as [-> | _]; [congruence | reflexivity].
  - rewrite !andb_true_r.
    destruct (String.eqb_spec key k) as [-> | _]; simpl.
    + rewrite Ek. now destruct (existsb (String.eqb k) keys).
    + now destruct (reaches_setter (props h destination) key).
Qed.

Lemma extend_loop_frame (destination source : loc) (keys : list string) :
  forall h : heap,
    delete destination (extend_loop destination source keys h) = delete destination h.
Proof.
  induction keys as [|key keys IH]; intros h; simpl; [reflexivity |].
  now rewrite IH, delete_heap_set.
Qed.

(** What the destination holds after [extend_]. *)
Lemma extend_lookup (destination source : loc) (h : heap) (k : string) :
  obj_lookup (props (snd (extend_ destination source h)) destination) k =
  match obj_lookup (props h source) k with
  | Some v => if reaches_setter (props h destination) k then None else Some v
  | None => obj_lookup (props h destination) k
  end.
Proof.
  unfold extend_. cbn [snd]. rewrite extend_loop_lookup, existsb_keys. unfold obj_get.
  destruct (obj_lookup (props h source) k); [| reflexivity].
  destruct (reaches_setter (props h destination) k) eqn:E; [| reflexivity].
  now apply reaches_setter_lookup.
Qed.

(** C7 fails on the code.  [extend_] returns the destination reference
    itself, changes no other object of the store, and on [{a:1}] and
    [{a:2,b:3}] makes the destination [{a:2,b:3}].  But it does not set
    every key of the source: for a source that replaces no prototype, the
    destination gets the value the source holds at a key unless the key is
    [__proto__] and the destination has no own property of that name; then
    the assignment ends in the inherited setter and the destination gets
    no property.  With the destination [{a:1}] and the source that
    [JSON.parse] reads from [{"__proto__":5,"b":2}] the destination becomes
    [{a:1,b:2}]. *)
Theorem extend_skips_proto_key :
  (forall (destination source : loc) (h : heap),
      keeps_prototypes (props h source) = true ->
      fst (extend_ destination source h) = destination
      /\ (forall k : string,
            obj_lookup (props (snd (extend_ destination source h)) destination) k =
            match obj_lookup (props h source) k with
            | Some v => if reaches_setter (props h destination) k then None else Some v
            | None => obj_lookup (props h destination) k
            end)
      /\ delete destination (snd (extend_ destination source h)) = delete destination h)
  /\ (let h : heap := <[1%nat := [("a", VNum (of_Z 2)); ("b", VNum (of_Z 3))]]>
                      (<[0%nat := [("a", VNum (of_Z 1))]]> ∅) in
      fst (extend_ 0%nat 1%nat h) = 0%nat
      /\ props (snd (extend_ 0%nat 1%nat h)) 0%nat =
         [("a", VNum (of_Z 2)); ("b", VNum (of_Z 3))]
      /\ props (snd (extend_ 0%nat 1%nat h)) 1%nat =
         [("a", VNum (of_Z 2)); ("b", VNum (of_Z 3))])
  /\ (let h : heap := <[1%nat := [("__proto__", VNum (of_Z 5)); ("b", VNum (of_Z 2))]]>
                      (<[0%nat := [("a", VNum (of_Z 1))]]> ∅) in
      obj_lookup (props h 1%nat) "__proto__" = Some (VNum (of_Z 5))
      /\ fst (extend_ 0%nat 1%nat h) = 0%nat
      /\ props (snd (extend_ 0%nat 1%nat h)) 0%nat =
         [("a", VNum (of_Z 1)); ("b", VNum (of_Z 2))]
      /\ obj_lookup (props (snd (extend_ 0%nat 1%nat h)) 0%nat) "__proto__" = None).
Proof.
  split; [| split].
  - intros destination source h _. split; [reflexivity | split].
    + intros k. apply extend_lookup.
    + apply extend_loop_frame.
  - cbv zeta. repeat split; vm_compute; reflexivity.
  - cbv zeta. repeat split; vm_compute; reflexivity.
Qed.

Lemma extend_skips_proto_key_witness :
  let h : heap := <[1%nat := [("__proto__", VStr "p"); ("b", VObject 2%nat)]]>
                  (<[0%nat := [("a", VNum (of_Z 1))]]> ∅) in
  obj_lookup (props (snd (extend_ 0%nat 1%nat h)) 0%nat) "b" = Some (VObject 2%nat)
  /\ obj_lookup (props (snd (extend_ 0%nat 1%nat h)) 0%nat) "__proto__" = None.
Proof.
  cbv zeta.
  destruct (proj1 extend_skips_proto_key 0%nat 1%nat
              (<[1%nat := [("__proto__", VStr "p"); ("b", VObject 2%nat)]]>
                 (<[0%nat := [("a", VNum (of_Z 1))]]> ∅))) as (_ & Hlookup & _).
  - vm_compute. reflexivity.
  - split; rewrite Hlookup; reflexivity.
Defined.

(** ** Object.assign and toLowerCaseKeys_ *)

Lemma obj_lookup_app {V} (a b : list (string * V)) (k : string) :
  obj_lookup (a ++ b)%list k =
  match obj_lookup a k with Some v => Some v | None => obj_lookup b k end.
Proof.
  induction a as [|[k' v'] a IH]; simpl; [reflexivity |].
  now destruct (String.eqb k' k).
Qed.

(** After [Object.assign(target, source)] a key reads what the last entry
    of the source with that key holds, and what the target held when the
    source has no such entry; a key that reaches the setter stays absent. *)
Lemma Object_assign_lookup {V} (source : list (string * V)) :
  forall (target : list (string * V)) (k : string),
    obj_lookup (Object_assign target source) k =
    if reaches_setter target k then None
    else match obj_lookup (rev source) k with
         | Some v => Some v
         | None => obj_lookup target k
         end.
Proof.
  unfold Object_assign.
  induction source as [|[k0 v0] source IH]; intros target k; simpl.
  - destruct (reaches_setter target k) eqn:E; [| reflexivity].
    now apply reaches_setter_lookup.
  - rewrite IH, reaches_setter_set, obj_lookup_app, obj_lookup_set. simpl.
    destruct (reaches_setter target k) eqn:E; [reflexivity |].
    destruct (obj_lookup (rev source) k); [reflexivity |].
    destruct (reaches_setter target k0) eqn:E0; [| now destruct (String.eqb k0 k)].
    destruct (String.eqb_spec k0 k) as [-> | _]; [congruence | reflexivity].
Qed.

Section LowerCaseFacts.
Variable toLowerCase : string -> string.

Lemma reduce_into_new_object (l result : loc) (o : list (string * value)) (keys : list string) :
  result <> l ->
  forall (h : heap) (acc : list (string * value)),
    h !! l = Some o ->
    h !! result = Some acc ->
    fold_left (fun h' k => heap_set result (toLowerCase k) (heap_get h' l k) h') keys h =
    <[result := fold_left (fun acc k => obj_set (toLowerCase k) (obj_get o k) acc) keys acc]> h.
Proof.
  intros Hne. induction keys as [|k keys IH]; intros h acc Hl Hr; cbn [fold_left].
  - symmetry. now apply insert_id.
  - rewrite (IH _ (obj_set (toLowerCase k) (obj_get o k) acc)).
    + unfold heap_set. now rewrite insert_insert_eq.
    + unfold heap_set. rewrite lookup_insert_ne by exact Hne. exact Hl.
    + unfold heap_set, heap_get, props. rewrite Hl, Hr. apply lookup_insert_eq.
Qed.

Lemma fold_keys_entries_in (all o : list (string * value)) :
  (forall kv, In kv o -> obj_get all (fst kv) = snd kv) ->
  forall acc,
    fold_left (fun acc k => obj_set (toLowerCase k) (obj_get all k) acc) (Object_keys o) acc =
    Object_assign acc (map (lower_entry toLowerCase) o).
Proof.
  unfold Object_assign, Object_keys.
  induction o as [|kv o IH]; intros Hall acc; [reflexivity |].
  simpl. rewrite (Hall kv) by now left.
  apply IH. intros kv' Hin. apply Hall. now right.
Qed.

Lemma fold_keys_entries (o : list (string * value)) :
  List.NoDup (Object_keys o) ->
  forall acc,
    fold_left (fun acc k => obj_set (toLowerCase k) (obj_get o k) acc) (Object_keys o) acc =
    Object_assign acc (map (lower_entry toLowerCase) o).
Proof.
  intros Hnd. apply fold_keys_entries_in.
  intros [k v] Hin. unfold obj_get. simpl. now rewrite (obj_lookup_In o k v Hnd Hin).
Qed.

(** C8 fails on the code.  A value that is not an object reference (so
    also [null]) is returned as it is and the store stays as it is.  For an
    object the function returns a reference to a new object, at a location
    that was not in use, and changes nothing else in the store; when no
    prototype is replaced, the new object is what assigning the entries of
    the input, with lower-cased keys and the same values, to an empty
    object gives, a later entry replacing the value of an earlier one with
    the same lower-cased key.
    But the new object does not have every lower-cased key: it never has
    the key [__proto__], because that assignment ends in the inherited
    setter.  For [{"__PROTO__":1, X:2}] the function returns [{x:2}]. *)
Theorem toLowerCaseKeys_skips_proto_key :
  (forall (obj : value) (h : heap),
      (forall l, obj <> VObject l) ->
      toLowerCaseKeys_ toLowerCase obj h = (obj, h))
  /\ (forall (l : loc) (h : heap) (o : list (string * value)),
        h !! l = Some o ->
        List.NoDup (Object_keys o) ->
        keeps_prototypes (map (lower_entry toLowerCase) o) = true ->
        exists result : loc,
          toLowerCaseKeys_ toLowerCase (VObject l) h =
          (VObject result, <[result := Object_assign [] (map (lower_entry toLowerCase) o)]> h)
          /\ h !! result = None
          /\ result <> l
          /\ forall k : string,
              obj_lookup (Object_assign [] (map (lower_entry toLowerCase) o)) k =
              if String.eqb k "__proto__" then None
              else obj_lookup (rev (map (lower_entry toLowerCase) o)) k)
  /\ (let h : heap := <[0%nat := [("A", VNum (of_Z 1)); ("a", VNum (of_Z 2))]]> ∅ in
      toLowerCaseKeys_ ascii_toLowerCase (VObject 0%nat) h =
      (VObject 1%nat, <[1%nat := [("a", VNum (of_Z 2))]]> h))
  /\ (forall h : heap, toLowerCaseKeys_ toLowerCase VNull h = (VNull, h))
  /\ (forall h : heap,
        toLowerCaseKeys_ toLowerCase (VNum (of_Z 5)) h = (VNum (of_Z 5), h))
  /\ (let h : heap := <[0%nat := [("__PROTO__", VNum (of_Z 1)); ("X", VNum (of_Z 2))]]> ∅ in
      toLowerCaseKeys_ ascii_toLowerCase (VObject 0%nat) h =
      (VObject 1%nat, <[1%nat := [("x", VNum (of_Z 2))]]> h)).
Proof.
  split; [| split; [| split; [| split; [| split]]]].
  - intros obj h Hobj. unfold toLowerCaseKeys_.
    destruct obj as [| | b | n | s | l | l]; try reflexivity. now destruct (Hobj l).
  - intros l h o Hl Hnd _. exists (fresh (dom h)).
    assert (Hfresh : h !! fresh (dom h) = None).
    { apply not_elem_of_dom. apply is_fresh. }
    assert (Hne : fresh (dom h) <> l) by congruence.
    split; [| split; [exact Hfresh | split; [exact Hne |]]].
    + unfold toLowerCaseKeys_, alloc. simpl. f_equal.
      unfold props at 1. rewrite Hl.
      rewrite (reduce_into_new_object l (fresh (dom h)) o (Object_keys o) Hne _ []).
      * rewrite insert_insert_eq. now rewrite fold_keys_entries.
      * rewrite lookup_insert_ne by exact Hne. exact Hl.
      * apply lookup_insert_eq.
    + intros k. rewrite Object_assign_lookup. unfold reaches_setter. cbn [obj_lookup].
      rewrite andb_true_r. destruct (String.eqb k "__proto__"); [reflexivity |].
      now destruct (obj_lookup (rev (map (lower_entry toLowerCase) o)) k).
  - vm_compute. reflexivity.
  - reflexivity.
  - reflexivity.
  - vm_compute. reflexivity.
Qed.
End LowerCaseFacts.

Lemma toLowerCaseKeys_skips_proto_key_witness :
  toLowerCaseKeys_ ascii_toLowerCase (VStr "Ab") ∅ = (VStr "Ab", ∅)
  /\ exists result : loc,
      toLowerCaseKeys_ ascii_toLowerCase (VObject 4%nat)
        (<[4%nat := [("Content-Type", VStr "json"); ("ETag", VObject 2%nat)]]> ∅) =
      (VObject result,
       <[result := Object_assign []
                     (map (lower_entry ascii_toLowerCase)
                          [("Content-Type", VStr "json"); ("ETag", VObject 2%nat)])]>
         (<[4%nat := [("Content-Type", VStr "json"); ("ETag", VObject 2%nat)]]> ∅))
      /\ result <> 4%nat.
Proof.
  split.
  - apply (proj1 (toLowerCaseKeys_skips_proto_key ascii_toLowerCase)). intros l. discriminate.
  - destruct (proj1 (proj2 (toLowerCaseKeys_skips_proto_key ascii_toLowerCase)) 4%nat
                (<[4%nat := [("Content-Type", VStr "json"); ("ETag", VObject 2%nat)]]> ∅)
                [("Content-Type", VStr "json"); ("ETag", VObject 2%nat)])
      as (result & Heq & _ & Hne & _).
    + apply lookup_insert_eq.
    + repeat constructor; simpl; intuition discriminate.
    + reflexivity.
    + exists result. split; [exact Heq | exact Hne].
Defined.

(** ** Base64 *)

Ltac div_mod_lia := zify; Z.to_euclidean_division_equations; lia.

Lemma list_ind3 {A} (P : list A -> Prop) :
  P [] -> (forall a, P [a]) -> (forall a b, P [a; b]) ->
  (forall a b c l, P l -> P (a :: b :: c :: l)) ->
  forall l, P l.
Proof.
  intros H0 H1 H2 H3 l.
  enough (H : P l /\ (forall a, P (a :: l)) /\ (forall a b, P (a :: b :: l))) by apply H.
  induction l as [|x l (IH0 & IH1 & IH2)]; [now repeat split |].
  split; [apply IH1 | split; [intros a; apply IH2 |]].
  intros a b. now apply H3.
Qed.

Lemma base64_value_char (n : N) : (n < 64)%N -> base64_value (base64_char n) = Some n.
Proof.
  intros H.
  rewrite <- (N2Nat.id n). assert (Hlt : (N.to_nat n < 64)%nat) by lia.
  clear H. revert Hlt. generalize (N.to_nat n). clear n. intros m Hlt.
  do 64 (destruct m as [|m]; [reflexivity |]). lia.
Qed.

Lemma base64_char_not_dot (n : N) : Ascii.eqb (base64_char n) "." = false.
Proof.
  rewrite <- (N2Nat.id n). generalize (N.to_nat n). clear n. intros m.
  unfold base64_char, char_at. rewrite Nat2N.id.
  do 64 (destruct m as [|m]; [reflexivity |]). reflexivity.
Qed.

Lemma char_code_bound (c : ascii) : (char_code c < 256)%N.
Proof. apply N_ascii_bounded. Qed.

Lemma ascii_of_char_code (c : ascii) (n : N) : n = char_code c -> ascii_of_N n = c.
Proof. intros ->. apply ascii_N_embedding. Qed.

(** Decoding inverts encoding. *)
Lemma base64_decode_encode (data : list ascii) :
  base64_decode (base64_encode data) = Some data.
Proof.
  induction data as [| a | a b | a b c rest IH] using list_ind3.
  - reflexivity.
  - pose proof (char_code_bound a).
    cbn [base64_encode base64_decode]. cbv zeta.
    repeat (rewrite base64_value_char by div_mod_lia). simpl.
    do 2 f_equal. apply ascii_of_char_code. div_mod_lia.
  - pose proof (char_code_bound a). pose proof (char_code_bound b).
    cbn [base64_encode base64_decode]. cbv zeta.
    repeat (rewrite base64_value_char by div_mod_lia). simpl.
    f_equal. f_equal; [| f_equal]; apply ascii_of_char_code; div_mod_lia.
  - pose proof (char_code_bound a). pose proof (char_code_bound b).
    pose proof (char_code_bound c).
    cbn [base64_encode base64_decode]. cbv zeta.
    repeat (rewrite base64_value_char by div_mod_lia). rewrite IH.
    f_equal. f_equal; [| f_equal; [| f_equal]]; apply ascii_of_char_code; div_mod_lia.
Qed.

Lemma base64_encode_dot_free (data : list ascii) :
  dot_free (base64_encode data) = true.
Proof.
  unfold dot_free.
  induction data as [| a | a b | a b c rest IH] using list_ind3;
    cbn [base64_encode]; cbv zeta; cbn [list_ascii_of_string forallb];
    rewrite ?base64_char_not_dot, ?IH; reflexivity.
Qed.

(** ** split *)

Lemma split_segment (a b : string) :
  dot_free a = true ->
  split "." (a ++ String "." b) = a :: split "." b.
Proof.
  unfold dot_free. induction a as [|c a IH]; simpl; intros H; [reflexivity |].
  apply andb_prop in H as [Hc Ha].
  destruct (Ascii.eqb c "."); [discriminate |].
  now rewrite IH.
Qed.

(** ** JSON: strings *)

Lemma parse_escape_char (c : ascii) (s : string) :
  JSON.parse_string_body (JSON.escape_char c ++ s) =
  JSON.prepend (String c "") (JSON.parse_string_body s).
Proof. destruct c as [[] [] [] [] [] [] [] []]; reflexivity. Qed.

Lemma parse_escape (s rest : string) :
  JSON.parse_string_body (JSON.escape s ++ String JSON.dquote rest) = Some (s, rest).
Proof.
  induction s as [|c s IH]; [reflexivity |].
  cbn [JSON.escape]. rewrite append_assoc, parse_escape_char, IH. reflexivity.
Qed.

(** Reading back a quoted string, after the opening quote. *)
Lemma parse_quote (s rest : string) :
  JSON.quote s ++ rest = String JSON.dquote (JSON.escape s ++ String JSON.dquote rest)
  /\ JSON.parse_string_body (JSON.escape s ++ String JSON.dquote rest) = Some (s, rest).
Proof.
  split; [| apply parse_escape].
  unfold JSON.quote. simpl. now rewrite append_assoc.
Qed.

(** ** Doubles: a decimal that is a double is its own nearest double *)

Lemma double_eqb_eq (x y : double) : double_eqb x y = true -> x = y.
Proof.
  destruct x as [| a | a | a m e], y as [| b | b | b m' e']; cbn; try discriminate; try reflexivity.
  - intros H. apply Bool.eqb_prop in H. now subst.
  - intros H. apply Bool.eqb_prop in H. now subst.
  - intros H. apply andb_prop in H as [H He]. apply andb_prop in H as [Ha Hm].
    apply Bool.eqb_prop in Ha. apply Pos.eqb_eq in Hm. apply Z.eqb_eq in He. now subst.
Qed.

Lemma pow2_pos (z : Z) : (0 < 2 ^ Z.max 0 z)%Z.
Proof. apply Z.pow_pos_nonneg; lia. Qed.

Lemma floor_log2_exact (p q m e : Z) :
  (0 < p)%Z -> (0 < q)%Z -> (2 ^ 52 <= m < 2 ^ 53)%Z ->
  (p * 2 ^ Z.max 0 (- e) = m * 2 ^ Z.max 0 e * q)%Z ->
  floor_log2 p q = (52 + e)%Z.
Proof.
  intros Hp Hq Hm Heq. unfold floor_log2.
  pose proof (Z.log2_spec p Hp) as [Hp1 Hp2].
  pose proof (Z.log2_spec q Hq) as [Hq1 Hq2].
  pose proof (Z.log2_nonneg p) as Hlp. pose proof (Z.log2_nonneg q) as Hlq.
  set (lp := Z.log2 p) in *. set (lq := Z.log2 q) in *.
  set (a := Z.max 0 (- e)) in *. set (b := Z.max 0 e) in *.
  assert (Hab : (b - a = e)%Z) by lia.
  assert (Ha : (0 <= a)%Z) by lia. assert (Hb : (0 <= b)%Z) by lia.
  rewrite Z.pow_succ_r in Hp2, Hq2 by assumption.
  assert (HA : (0 < 2 ^ a)%Z) by (apply Z.pow_pos_nonneg; lia).
  assert (HB : (0 < 2 ^ b)%Z) by (apply Z.pow_pos_nonneg; lia).
  assert (HLP : (0 < 2 ^ lp)%Z) by (apply Z.pow_pos_nonneg; lia).
  assert (HLQ : (0 < 2 ^ lq)%Z) by (apply Z.pow_pos_nonneg; lia).
  assert (Hlow : (52 + b + lq < lp + 1 + a)%Z).
  { apply (Z.pow_lt_mono_r_iff 2); [lia | lia |].
    rewrite !Z.pow_add_r by lia. change (2 ^ 1)%Z with 2%Z.
    assert (H52 : (0 < 2 ^ 52)%Z) by reflexivity.
    revert Heq Hp1 Hp2 Hq1 Hq2 HA HB HLP HLQ Hm H52.
    generalize (2 ^ a)%Z (2 ^ b)%Z (2 ^ lp)%Z (2 ^ lq)%Z (2 ^ 52)%Z (2 ^ 53)%Z.
    intros A B LP LQ T52 T53 Heq Hp1 Hp2 Hq1 Hq2 HA HB HLP HLQ Hm H52.
    assert (T52 * B <= m * B)%Z by nia.
    assert (T52 * B * LQ <= m * B * LQ)%Z by nia.
    assert (m * B * LQ <= m * B * q)%Z by nia.
    assert (p * A < LP * 2 * A)%Z by nia. nia. }
  assert (Hhigh : (lp + a < 53 + b + (lq + 1))%Z).
  { apply (Z.pow_lt_mono_r_iff 2); [lia | lia |].
    rewrite !Z.pow_add_r by lia. change (2 ^ 1)%Z with 2%Z.
    assert (H52 : (0 < 2 ^ 52)%Z) by reflexivity.
    revert Heq Hp1 Hp2 Hq1 Hq2 HA HB HLP HLQ Hm H52.
    generalize (2 ^ a)%Z (2 ^ b)%Z (2 ^ lp)%Z (2 ^ lq)%Z (2 ^ 52)%Z (2 ^ 53)%Z.
    intros A B LP LQ T52 T53 Heq Hp1 Hp2 Hq1 Hq2 HA HB HLP HLQ Hm H52.
    assert (LP * A <= p * A)%Z by nia.
    assert (m * B < T53 * B)%Z by nia.
    assert (m * B * q < T53 * B * q)%Z by nia.
    assert (T53 * B * q < T53 * B * (LQ * 2))%Z by nia. nia. }
  set (l := (lp - lq)%Z).
  assert (Hl : (l = 52 + e \/ l = 53 + e)%Z) by lia.
  set (u := Z.max 0 (- l)). set (v := Z.max 0 l).
  assert (Hu : (0 <= u)%Z) by lia. assert (Hv : (0 <= v)%Z) by lia.
  assert (HU : (0 < 2 ^ u)%Z) by (apply Z.pow_pos_nonneg; lia).
  assert (HV : (0 < 2 ^ v)%Z) by (apply Z.pow_pos_nonneg; lia).
  destruct Hl as [Hl | Hl].
  - assert (Hge : (q * 2 ^ v <= p * 2 ^ u)%Z).
    { apply (Z.mul_le_mono_pos_r _ _ (2 ^ a)); [exact HA |].
      replace (p * 2 ^ u * 2 ^ a)%Z with (m * 2 ^ b * q * 2 ^ u)%Z by (rewrite <- Heq; ring).
      replace (q * 2 ^ v * 2 ^ a)%Z with (2 ^ (v + a) * q)%Z by (rewrite Z.pow_add_r by lia; ring).
      replace (v + a)%Z with (52 + b + u)%Z by lia.
      rewrite !Z.pow_add_r by lia.
      revert HB HU Hm Hq. generalize (2 ^ b)%Z (2 ^ u)%Z (2 ^ 52)%Z (2 ^ 53)%Z.
      intros B U T52 T53 HB HU Hm Hq.
      assert (0 < B * U)%Z by nia. assert (0 < B * U * q)%Z by nia.
      replace (T52 * B * U * q)%Z with (T52 * (B * U * q))%Z by ring.
      replace (m * B * q * U)%Z with (m * (B * U * q))%Z by ring. nia. }
    apply Z.ltb_ge in Hge. rewrite Hge. exact Hl.
  - assert (Hlt : (p * 2 ^ u < q * 2 ^ v)%Z).
    { apply (Z.mul_lt_mono_pos_r (2 ^ a)); [exact HA |].
      replace (p * 2 ^ u * 2 ^ a)%Z with (m * 2 ^ b * q * 2 ^ u)%Z by (rewrite <- Heq; ring).
      replace (q * 2 ^ v * 2 ^ a)%Z with (2 ^ (v + a) * q)%Z by (rewrite Z.pow_add_r by lia; ring).
      replace (v + a)%Z with (53 + b + u)%Z by lia.
      rewrite !Z.pow_add_r by lia.
      revert HB HU Hm Hq. generalize (2 ^ b)%Z (2 ^ u)%Z (2 ^ 52)%Z (2 ^ 53)%Z.
      intros B U T52 T53 HB HU Hm Hq.
      assert (0 < B * U)%Z by nia. assert (0 < B * U * q)%Z by nia.
      replace (T53 * B * U * q)%Z with (T53 * (B * U * q))%Z by ring.
      replace (m * B * q * U)%Z with (m * (B * U * q))%Z by ring. nia. }
    apply Z.ltb_lt in Hlt. rewrite Hlt. lia.
Qed.

Lemma floor_log2_le (p q : Z) : (floor_log2 p q <= Z.log2 p - Z.log2 q)%Z.
Proof. unfold floor_log2. destruct (_ <? _)%Z; lia. Qed.

Lemma floor_log2_subnormal (p q m : Z) :
  (0 < p)%Z -> (0 < q)%Z -> (m < 2 ^ 52)%Z ->
  (p * 2 ^ 1074 = m * q)%Z ->
  (floor_log2 p q - 52 <= -1074)%Z.
Proof.
  intros Hp Hq Hm Heq. pose proof (floor_log2_le p q) as Hle.
  pose proof (Z.log2_spec p Hp) as [Hp1 _].
  pose proof (Z.log2_spec q Hq) as [_ Hq2].
  pose proof (Z.log2_nonneg p) as Hlp. pose proof (Z.log2_nonneg q) as Hlq.
  set (lp := Z.log2 p) in *. set (lq := Z.log2 q) in *.
  rewrite Z.pow_succ_r in Hq2 by assumption.
  assert (H : (lp + 1074 < 53 + lq)%Z); [| lia].
  apply (Z.pow_lt_mono_r_iff 2); [lia | lia |].
  rewrite !Z.pow_add_r by lia.
  assert (HLP : (0 < 2 ^ lp)%Z) by (apply Z.pow_pos_nonneg; lia).
  assert (HLQ : (0 < 2 ^ lq)%Z) by (apply Z.pow_pos_nonneg; lia).
  assert (H1074 : (0 < 2 ^ 1074)%Z) by reflexivity.
  change (2 ^ 53)%Z with (2 ^ 52 * 2)%Z.
  assert (H52 : (0 < 2 ^ 52)%Z) by reflexivity.
  revert Heq Hp1 Hq2 HLP HLQ H1074 Hm H52.
  generalize (2 ^ lp)%Z (2 ^ lq)%Z (2 ^ 1074)%Z (2 ^ 52)%Z.
  intros LP LQ T T52 Heq Hp1 Hq2 HLP HLQ HT Hm H52.
  assert (LP * T <= p * T)%Z by nia.
  assert (0 < m)%Z by nia.
  assert (m * q < T52 * q)%Z by nia.
  assert (T52 * q < T52 * (2 * LQ))%Z by nia. nia.
Qed.

Lemma round_half_even_exact (m d : Z) : (0 < d)%Z -> round_half_even (m * d) d = m.
Proof.
  intros Hd. unfold round_half_even.
  rewrite Z.mod_mul, Z.div_mul by lia.
  destruct (2 * 0 ?= d)%Z eqn:E; try reflexivity.
  - apply Z.compare_eq in E. lia.
  - apply Z.compare_gt_iff in E. lia.
Qed.

(** A ratio that is a double is its own nearest double. *)
Lemma nearest_double_exact (negative : bool) (p q : Z) (m : positive) (e : Z) :
  valid_double (DFinite negative m e) = true ->
  (0 < p)%Z -> (0 < q)%Z ->
  (p * 2 ^ Z.max 0 (- e) = Zpos m * 2 ^ Z.max 0 e * q)%Z ->
  nearest_double negative p q = DFinite negative m e.
Proof.
  intros Hvalid Hp Hq Heq. unfold nearest_double.
  assert (He : Z.max (-1074) (floor_log2 p q - 52) = e).
  { cbn [valid_double] in Hvalid. apply orb_prop in Hvalid as [H | H].
    - apply andb_prop in H as [H H4]. apply andb_prop in H as [H H3].
      apply andb_prop in H as [H1 H2].
      apply Z.leb_le in H1, H3, H4. apply Z.ltb_lt in H2.
      rewrite (floor_log2_exact p q (Zpos m) e) by (assumption || lia). lia.
    - apply andb_prop in H as [H1 H2]. apply Z.ltb_lt in H1. apply Z.eqb_eq in H2. subst e.
      pose proof (floor_log2_subnormal p q (Zpos m) Hp Hq H1) as Hs.
      change (Z.max 0 (- -1074)) with 1074%Z in Heq. change (Z.max 0 (-1074)) with 0%Z in Heq.
      rewrite Z.pow_0_r, Z.mul_1_r in Heq. specialize (Hs Heq). lia. }
  rewrite He, Heq.
  replace (Zpos m * 2 ^ Z.max 0 e * q)%Z with (Zpos m * (q * 2 ^ Z.max 0 e))%Z by ring.
  rewrite round_half_even_exact by (pose proof (pow2_pos e); nia).
  assert (Hm : (Zpos m <? 2 ^ 53)%Z = true /\ (e <=? 971)%Z = true).
  { cbn [valid_double] in Hvalid. apply orb_prop in Hvalid as [H | H].
    - apply andb_prop in H as [H H4]. apply andb_prop in H as [H H3].
      apply andb_prop in H as [H1 H2]. now split.
    - apply andb_prop in H as [H1 H2]. apply Z.ltb_lt in H1. apply Z.eqb_eq in H2. subst e.
      split; [| reflexivity]. apply Z.ltb_lt. 
      assert (2 ^ 52 < 2 ^ 53)%Z by reflexivity. lia. }
  destruct Hm as [Hm1 Hm2]. apply Z.ltb_lt in Hm1. apply Z.leb_le in Hm2.
  replace (Zpos m =? 2 ^ 53)%Z with false by (symmetry; apply Z.eqb_neq; lia).
  replace (971 <? e)%Z with false by (symmetry; apply Z.ltb_ge; lia).
  reflexivity.
Qed.

(** ** JSON: numbers *)

Lemma all_digits_append (a b : string) :
  all_digits (a ++ b) = all_digits a && all_digits b.
Proof.
  unfold all_digits. induction a as [|c a IH]; cbn [String.append list_ascii_of_string forallb];
    [reflexivity |].
  now rewrite IH, andb_assoc.
Qed.

Lemma span_digits_append (digits rest : string) :
  all_digits digits = true ->
  starts_without_digit rest = true ->
  JSON.span_digits (digits ++ rest) = (digits, rest).
Proof.
  unfold all_digits. intros Hd Hr. induction digits as [|c digits IH];
    cbn [String.append JSON.span_digits list_ascii_of_string forallb] in *.
  - destruct rest as [|c rest]; [reflexivity |].
    cbn [starts_without_digit JSON.span_digits] in *.
    destruct (is_digit c); [discriminate | reflexivity].
  - apply andb_prop in Hd as [Hc Hd]. rewrite Hc, IH by assumption. reflexivity.
Qed.

Lemma digits_value_append (a b : string) :
  forall acc : N,
    digits_value (a ++ b) acc =
    match digits_value a acc with
    | Some v => digits_value b v
    | None => None
    end.
Proof.
  induction a as [|c a IH]; intros acc; cbn [String.append digits_value]; [reflexivity |].
  destruct (is_digit c); [apply IH | reflexivity].
Qed.

Lemma digits_value_shift (s : string) :
  forall acc d v : N,
    digits_value s acc = Some v ->
    digits_value s (acc + d) = Some (v + d * 10 ^ N.of_nat (String.length s))%N.
Proof.
  induction s as [|c s IH]; intros acc d v; cbn [digits_value String.length].
  - intros [= <-]. f_equal. cbn. lia.
  - destruct (is_digit c); [| discriminate]. intros H.
    replace (10 * (acc + d) + (char_code c - char_code "0"))%N
      with (10 * acc + (char_code c - char_code "0") + 10 * d)%N by lia.
    rewrite (IH _ (10 * d)%N v H). f_equal.
    rewrite Nat2N.inj_succ, N.pow_succ_r'. lia.
Qed.

Lemma digits_value_zeros (j : nat) (acc : N) :
  digits_value (zeros j) acc = Some (acc * 10 ^ N.of_nat j)%N.
Proof.
  revert acc. induction j as [|j IH]; intros acc; cbn [zeros digits_value].
  - f_equal. cbn. lia.
  - change (is_digit "0") with true. cbv iota. rewrite IH. f_equal.
    rewrite Nat2N.inj_succ, N.pow_succ_r'. cbn. lia.
Qed.

Lemma all_digits_zeros (j : nat) : all_digits (zeros j) = true.
Proof. unfold all_digits. induction j as [|j IH]; [reflexivity | exact IH]. Qed.

Lemma length_zeros (j : nat) : String.length (zeros j) = j.
Proof. induction j as [|j IH]; cbn; [reflexivity | now rewrite IH]. Qed.

Lemma take_drop (n : nat) (s : string) : take n s ++ drop n s = s.
Proof.
  revert s. induction n as [|n IH]; intros [|c s]; cbn; try reflexivity. now rewrite IH.
Qed.

Lemma length_drop (n : nat) (s : string) :
  String.length (drop n s) = (String.length s - n)%nat.
Proof.
  revert s. induction n as [|n IH]; intros [|c s]; cbn; try reflexivity; try lia. apply IH.
Qed.

Lemma digits_value_uint (d : Decimal.uint) :
  forall acc : N, digits_value (NilEmpty.string_of_uint d) acc = Some (uint_value d acc).
Proof.
  induction d; intros acc; cbn [NilEmpty.string_of_uint digits_value uint_value];
    [reflexivity | ..].
  all: match goal with |- context [is_digit ?c] => change (is_digit c) with true end.
  all: cbv iota; rewrite IHd; do 2 f_equal; cbn; lia.
Qed.

Lemma uint_value_pos (d : Decimal.uint) :
  forall a : positive, uint_value d (Npos a) = Npos (Pos.of_uint_acc d a).
Proof.
  induction d; intros a; cbn [uint_value Pos.of_uint_acc]; [reflexivity | ..].
  all: rewrite <- IHd; f_equal; lia.
Qed.

Lemma uint_value_of_uint (d : Decimal.uint) : uint_value d 0 = N.of_uint d.
Proof.
  unfold N.of_uint.
  induction d; cbn [uint_value Pos.of_uint]; [reflexivity | exact IHd | ..].
  all: cbn; apply uint_value_pos.
Qed.

Lemma string_of_uint_digits (d : Decimal.uint) :
  all_digits (NilEmpty.string_of_uint d) = true.
Proof. unfold all_digits. induction d; simpl; auto. Qed.

Lemma nzhead_not_D0 (d d' : Decimal.uint) : Decimal.nzhead d <> Decimal.D0 d'.
Proof. induction d; simpl; try discriminate. exact IHd. Qed.

Lemma to_uint_no_leading_zero (p : positive) (d : Decimal.uint) :
  Pos.to_uint p <> Decimal.D0 d.
Proof.
  intros E.
  pose proof (DecimalPos.Unsigned.to_of (Pos.to_uint p)) as H.
  rewrite DecimalPos.Unsigned.of_to in H. simpl in H. rewrite E in H.
  rewrite DecimalFacts.unorm_D0 in H. unfold Decimal.unorm in H.
  destruct (Decimal.nzhead d) eqn:En; try discriminate H.
  - injection H as ->. apply (DecimalPos.Unsigned.to_uint_nonzero p). exact E.
  - exact (nzhead_not_D0 _ _ En).
Qed.

(** The numeral of a number: digits, read back as the number. *)
Lemma print_N_digits (n : N) : all_digits (print_N n) = true.
Proof.
  unfold print_N, NilZero.string_of_uint.
  destruct (N.to_uint n); try apply string_of_uint_digits. reflexivity.
Qed.

Lemma digits_value_print_N (n : N) : digits_value (print_N n) 0 = Some n.
Proof.
  unfold print_N, NilZero.string_of_uint.
  pose proof (DecimalN.Unsigned.of_to n) as Hof.
  destruct (N.to_uint n) eqn:E.
  - cbn in Hof. subst n. reflexivity.
  - rewrite digits_value_uint, uint_value_of_uint. now rewrite Hof.
  - rewrite digits_value_uint, uint_value_of_uint. now rewrite Hof.
  - rewrite digits_value_uint, uint_value_of_uint. now rewrite Hof.
  - rewrite digits_value_uint, uint_value_of_uint. now rewrite Hof.
  - rewrite digits_value_uint, uint_value_of_uint. now rewrite Hof.
  - rewrite digits_value_uint, uint_value_of_uint. now rewrite Hof.
  - rewrite digits_value_uint, uint_value_of_uint. now rewrite Hof.
  - rewrite digits_value_uint, uint_value_of_uint. now rewrite Hof.
  - rewrite digits_value_uint, uint_value_of_uint. now rewrite Hof.
  - rewrite digits_value_uint, uint_value_of_uint. now rewrite Hof.
Qed.

(** The numeral of a positive number begins with a digit other than zero. *)
Lemma print_N_head (p : positive) :
  exists c s, print_N (Npos p) = String c s /\ is_digit c = true /\ Ascii.eqb c "0" = false.
Proof.
  unfold print_N. change (N.to_uint (Npos p)) with (Pos.to_uint p).
  pose proof (to_uint_no_leading_zero p) as Hz.
  pose proof (DecimalPos.Unsigned.to_uint_nonnil p) as Hn.
  destruct (Pos.to_uint p) as [| d | d | d | d | d | d | d | d | d | d];
    [congruence | now destruct (Hz d) | ..].
  all: eexists _, _; repeat split.
Qed.

Lemma digit_not_mark (c : ascii) :
  is_digit c = true ->
  Ascii.eqb c "-" = false /\ Ascii.eqb c "+" = false /\ Ascii.eqb c "." = false.
Proof. destruct c as [[] [] [] [] [] [] [] []]; intros H; try discriminate H; now repeat split. Qed.

Lemma delimited_head (c : ascii) (rest : string) :
  delimited (String c rest) = true ->
  is_digit c = false /\ Ascii.eqb c "." = false
  /\ Ascii.eqb c "e" = false /\ Ascii.eqb c "E" = false.
Proof.
  cbn [delimited]. intros H. apply negb_true_iff in H.
  apply orb_false_iff in H as [H HE]. apply orb_false_iff in H as [H He].
  apply orb_false_iff in H as [Hd Hdot]. now repeat split.
Qed.

Lemma delimited_without_digit (rest : string) :
  delimited rest = true -> starts_without_digit rest = true.
Proof.
  destruct rest as [|c rest]; [reflexivity |]. intros H.
  apply delimited_head in H as (Hd & _). cbn. now rewrite Hd.
Qed.

Lemma print_N_not_empty (n : N) : String.eqb (print_N n) "" = false.
Proof.
  destruct n as [|p]; [reflexivity |].
  destruct (print_N_head p) as (c & s & -> & _). reflexivity.
Qed.

Lemma parse_exponent_text (exponent : option Z) (rest : string) :
  delimited rest = true ->
  JSON.parse_exponent (exponent_text exponent ++ rest) =
  Some (match exponent with Some z => z | None => 0%Z end, rest).
Proof.
  intros Hr. destruct exponent as [z|]; cbn [exponent_text].
  - assert (Hspan : JSON.span_digits (print_N (Z.abs_N z) ++ rest) = (print_N (Z.abs_N z), rest)).
    { apply span_digits_append; [apply print_N_digits | now apply delimited_without_digit]. }
    destruct (0 <=? z)%Z eqn:Hz.
    + cbn. rewrite Hspan, digits_value_print_N, print_N_not_empty.
      apply Z.leb_le in Hz. do 2 f_equal. lia.
    + cbn. rewrite Hspan, digits_value_print_N, print_N_not_empty.
      apply Z.leb_gt in Hz. do 2 f_equal. lia.
  - cbn [String.append]. destruct rest as [|c rest]; [reflexivity |].
    apply delimited_head in Hr as (_ & _ & He & HE).
    cbn [JSON.parse_exponent]. now rewrite He, HE.
Qed.

(** What follows the digits before the point is no digit; what follows the
    fraction is neither a digit nor a point. *)
Lemma exponent_text_head (exponent : option Z) (rest : string) :
  delimited rest = true ->
  starts_without_digit (exponent_text exponent ++ rest) = true
  /\ JSON.closing "." (exponent_text exponent ++ rest) = None.
Proof.
  intros Hr. destruct exponent as [z|]; [now split |].
  cbn [exponent_text String.append]. split; [now apply delimited_without_digit |].
  destruct rest as [|c rest]; [reflexivity |].
  apply delimited_head in Hr as (_ & Hdot & _). cbn. now rewrite Hdot.
Qed.

Lemma parse_fraction_text (fraction tail : string) :
  all_digits fraction = true ->
  starts_without_digit tail = true ->
  JSON.closing "." tail = None ->
  JSON.parse_fraction (fraction_text fraction ++ tail) = Some (fraction, tail).
Proof.
  intros Hd Htail Hdot. unfold fraction_text.
  destruct (String.eqb_spec fraction "") as [-> | Hne].
  - cbn [String.append]. unfold JSON.parse_fraction. now rewrite Hdot.
  - unfold JSON.parse_fraction. cbn. rewrite span_digits_append by assumption.
    apply String.eqb_neq in Hne. now rewrite Hne.
Qed.

(** A numeral made of its parts is read back part by part. *)
Lemma parse_number_parts (negative : bool) (int fraction : string) (exponent : option Z)
      (rest : string) (i : N) :
  all_digits int = true ->
  String.eqb int "" = false ->
  JSON.leading_zero int = false ->
  all_digits fraction = true ->
  delimited rest = true ->
  digits_value (int ++ fraction) 0 = Some i ->
  JSON.parse_number ((if negative then "-" else "") ++
                int ++ fraction_text fraction ++ exponent_text exponent ++ rest) =
  Some (of_decimal negative i
          (match exponent with Some z => z | None => 0%Z end
           - Z.of_nat (String.length fraction)), rest).
Proof.
  intros Hint Hne Hlead Hfrac Hr Hvalue.
  destruct (exponent_text_head exponent rest Hr) as [Hnodigit Hnodot].
  assert (Htail : starts_without_digit
                    (fraction_text fraction ++ exponent_text exponent ++ rest) = true).
  { unfold fraction_text. destruct (String.eqb fraction ""); [exact Hnodigit | reflexivity]. }
  assert (Hsign : JSON.parse_sign ((if negative then "-" else "") ++
                    int ++ fraction_text fraction ++ exponent_text exponent ++ rest) =
                  (negative, int ++ fraction_text fraction ++ exponent_text exponent ++ rest)).
  { destruct negative; [reflexivity |]. cbn [String.append].
    destruct int as [|c int]; [discriminate |].
    unfold all_digits in Hint. cbn in Hint. apply andb_prop in Hint as [Hc _].
    destruct (digit_not_mark c Hc) as (Hminus & _).
    unfold JSON.parse_sign. cbn. now rewrite Hminus. }
  unfold JSON.parse_number. rewrite Hsign.
  rewrite span_digits_append by assumption.
  rewrite Hne, Hlead. cbn [orb].
  rewrite parse_fraction_text by assumption.
  rewrite parse_exponent_text by assumption.
  now rewrite Hvalue.
Qed.

Lemma of_decimal_scale (negative : bool) (s : N) (j : nat) :
  of_decimal negative (s * 10 ^ N.of_nat j) 0 = of_decimal negative s (Z.of_nat j).
Proof.
  unfold of_decimal.
  assert (Hpow : (10 ^ N.of_nat j <> 0)%N) by (apply N.pow_nonzero; discriminate).
  destruct (N.eqb_spec s 0) as [-> | Hs].
  - reflexivity.
  - replace (s * 10 ^ N.of_nat j =? 0)%N with false by (symmetry; apply N.eqb_neq; lia).
    f_equal.
    + rewrite N2Z.inj_mul, N2Z.inj_pow, nat_N_Z.
      change (Z.max 0 0) with 0%Z. change (Z.of_N 10) with 10%Z.
      rewrite Z.max_r by lia. rewrite Z.pow_0_r. lia.
    + replace (Z.max 0 (- Z.of_nat j)) with 0%Z by lia. reflexivity.
Qed.

Lemma length_take (n : nat) (s : string) :
  String.length (take n s) = Nat.min n (String.length s).
Proof.
  revert s. induction n as [|n IH]; intros [|c s]; cbn; try reflexivity. now rewrite IH.
Qed.

(** The numeral of a decimal, taken apart. *)
Lemma numeral_parts (p : positive) (e10 : Z) :
  exists (int fraction : string) (exponent : option Z) (i : N),
    numeral (Npos p) e10 = int ++ fraction_text fraction ++ exponent_text exponent
    /\ all_digits int = true
    /\ String.eqb int "" = false
    /\ JSON.leading_zero int = false
    /\ all_digits fraction = true
    /\ digits_value (int ++ fraction) 0 = Some i
    /\ forall negative,
         of_decimal negative i
           (match exponent with Some z => z | None => 0%Z end
            - Z.of_nat (String.length fraction)) =
         of_decimal negative (Npos p) e10.
Proof.
  unfold numeral.
  pose proof (print_N_digits (Npos p)) as Hdigits.
  pose proof (digits_value_print_N (Npos p)) as Hvalue.
  destruct (print_N_head p) as (c & tail & Hhead & Hc & Hzero).
  set (digits := print_N (Npos p)) in *.
  assert (Hlen : (0 < String.length digits)%nat) by (rewrite Hhead; cbn; lia).
  set (k := Z.of_nat (String.length digits)).
  set (n := (k + e10)%Z).
  destruct ((k <=? n) && (n <=? 21))%Z eqn:H1.
  { (* digits followed by zeros *)
    apply andb_prop in H1 as [H1 _]. apply Z.leb_le in H1.
    exists (digits ++ zeros (Z.to_nat (n - k))), "", None, (Npos p * 10 ^ N.of_nat (Z.to_nat (n - k)))%N.
    cbn [fraction_text exponent_text String.eqb String.append String.length].
    rewrite !append_empty_r. split; [reflexivity |].
    split; [now rewrite all_digits_append, Hdigits, all_digits_zeros |].
    split; [now rewrite Hhead |].
    split; [rewrite Hhead; cbn; destruct (tail ++ _); [reflexivity | exact Hzero] |].
    split; [reflexivity |].
    split.
    - rewrite digits_value_append, Hvalue. apply digits_value_zeros.
    - intros negative. cbn [Z.of_nat Z.sub Z.opp Z.add].
      rewrite of_decimal_scale. f_equal. lia. }
  destruct ((0 <? n) && (n <=? 21))%Z eqn:H2.
  { (* a point inside the digits *)
    apply andb_prop in H2 as [H2 H2']. apply Z.ltb_lt in H2. apply Z.leb_le in H2'.
    assert (Hnk : (n < k)%Z).
    { apply andb_false_iff in H1 as [H1 | H1]; apply Z.leb_gt in H1; lia. }
    clear H1.
    pose proof (take_drop (Z.to_nat n) digits) as Htd.
    pose proof (length_drop (Z.to_nat n) digits) as Hld.
    assert (Hdrop : String.eqb (drop (Z.to_nat n) digits) "" = false).
    { destruct (drop (Z.to_nat n) digits); [cbn in Hld; lia | reflexivity]. }
    exists (take (Z.to_nat n) digits), (drop (Z.to_nat n) digits), None, (Npos p).
    unfold fraction_text. rewrite Hdrop. cbn [exponent_text]. rewrite append_empty_r.
    rewrite <- Htd, all_digits_append in Hdigits. apply andb_prop in Hdigits as [Ht Hd].
    split; [reflexivity |].
    split; [exact Ht |].
    assert (Htake : exists t, take (Z.to_nat n) digits = String c t).
    { rewrite Hhead. destruct (Z.to_nat n) eqn:En; [lia |]. cbn. now eexists. }
    destruct Htake as [t Htake].
    split; [now rewrite Htake |].
    split; [rewrite Htake; cbn; destruct t; [reflexivity | exact Hzero] |].
    split; [exact Hd |].
    split; [now rewrite Htd |].
    intros negative. f_equal. rewrite Hld. lia. }
  destruct ((-6 <? n) && (n <=? 0))%Z eqn:H3.
  { (* zeros between the point and the digits *)
    apply andb_prop in H3 as [_ H3]. apply Z.leb_le in H3.
    exists "0", (zeros (Z.to_nat (- n)) ++ digits), None, (Npos p).
    assert (Hfrac : String.eqb (zeros (Z.to_nat (- n)) ++ digits) "" = false).
    { rewrite Hhead. destruct (zeros (Z.to_nat (- n))); reflexivity. }
    unfold fraction_text. rewrite Hfrac. cbn [exponent_text]. rewrite append_empty_r.
    split; [reflexivity |].
    split; [reflexivity |]. split; [reflexivity |]. split; [reflexivity |].
    split; [now rewrite all_digits_append, all_digits_zeros |].
    split.
    - cbn [String.append digits_value]. change (is_digit "0") with true. cbv iota.
      rewrite digits_value_append, digits_value_zeros. exact Hvalue.
    - intros negative. f_equal. rewrite length_append, length_zeros. lia. }
  destruct (k =? 1)%Z eqn:H4.
  { (* one digit and an exponent *)
    apply Z.eqb_eq in H4.
    exists digits, "", (Some (n - 1)%Z), (Npos p).
    cbn [fraction_text exponent_text String.eqb String.append String.length].
    split; [reflexivity |].
    split; [exact Hdigits |].
    split; [now rewrite Hhead |].
    split; [rewrite Hhead; cbn; destruct tail; [reflexivity | exact Hzero] |].
    split; [reflexivity |].
    split; [now rewrite append_empty_r |].
    intros negative. f_equal. lia. }
  (* a point after the first digit, and an exponent *)
  apply Z.eqb_neq in H4.
  pose proof (take_drop 1 digits) as Htd.
  pose proof (length_drop 1 digits) as Hld.
  assert (Hdrop : String.eqb (drop 1 digits) "" = false).
  { destruct (drop 1 digits); [cbn in Hld; lia | reflexivity]. }
  exists (take 1 digits), (drop 1 digits), (Some (n - 1)%Z), (Npos p).
  unfold fraction_text. rewrite Hdrop. cbn [exponent_text].
  rewrite <- Htd, all_digits_append in Hdigits. apply andb_prop in Hdigits as [Ht Hd].
  split; [now rewrite !append_assoc |].
  split; [exact Ht |].
  split; [now rewrite Hhead |].
  split; [now rewrite Hhead |].
  split; [exact Hd |].
  split; [now rewrite Htd |].
  intros negative. f_equal. rewrite Hld. lia.
Qed.

(** The numeral of a decimal is read back as the double the decimal denotes. *)
Lemma parse_number_numeral (negative : bool) (p : positive) (e10 : Z) (rest : string) :
  delimited rest = true ->
  JSON.parse_number ((if negative then "-" else "") ++ numeral (Npos p) e10 ++ rest) =
  Some (of_decimal negative (Npos p) e10, rest).
Proof.
  intros Hr.
  destruct (numeral_parts p e10)
    as (int & fraction & exponent & i & -> & Hint & Hne & Hlead & Hfrac & Hvalue & Hsame).
  rewrite !append_assoc, <- Hsame. now apply parse_number_parts.
Qed.

Lemma of_decimal_exact (negative : bool) (s : N) (e10 : Z) (m : positive) (e : Z) :
  valid_double (DFinite negative m e) = true ->
  s <> 0%N ->
  (Z.of_N s * 10 ^ Z.max 0 e10 * 2 ^ Z.max 0 (- e) =
   Zpos m * 2 ^ Z.max 0 e * 10 ^ Z.max 0 (- e10))%Z ->
  of_decimal negative s e10 = DFinite negative m e.
Proof.
  intros Hvalid Hs Heq. unfold of_decimal.
  replace (s =? 0)%N with false by (symmetry; now apply N.eqb_neq).
  assert (H10 : forall z, (0 < 10 ^ Z.max 0 z)%Z) by (intros z; apply Z.pow_pos_nonneg; lia).
  apply nearest_double_exact; [exact Hvalid | | apply H10 | exact Heq].
  pose proof (H10 e10). nia.
Qed.

Lemma of_decimal_sign (negative : bool) (s : N) (e10 : Z) (m : positive) (e : Z) :
  of_decimal false s e10 = DFinite false m e ->
  of_decimal negative s e10 = DFinite negative m e.
Proof.
  unfold of_decimal, nearest_double.
  destruct (s =? 0)%N; [discriminate |].
  destruct (_ =? 2 ^ 53)%Z.
  - destruct (2 ^ 52)%Z; try discriminate. destruct (971 <? _)%Z; [discriminate |].
    now intros [= -> ->].
  - destruct (round_half_even _ _); try discriminate. destruct (971 <? _)%Z; [discriminate |].
    now intros [= -> ->].
Qed.

(** The decimal that [Number::toString] prints denotes the number. *)
Lemma shortest_denotes (m : positive) (e : Z) :
  valid_double (DFinite false m e) = true ->
  of_decimal false (fst (shortest m e)) (snd (shortest m e)) = DFinite false m e.
Proof.
  intros Hvalid. unfold shortest.
  destruct (List.find _ _) as [[s e10]|] eqn:Efind.
  - apply find_some in Efind as [_ H]. cbn [fst snd]. now apply double_eqb_eq.
  - destruct (0 <=? e)%Z eqn:He; cbn [fst snd].
    + apply Z.leb_le in He.
      assert (Hp : (0 < Zpos m * 2 ^ Z.max 0 e)%Z) by (pose proof (pow2_pos e); nia).
      apply of_decimal_exact; [exact Hvalid | lia |].
      rewrite Z2N.id by lia.
      replace (Z.max 0 (- e)) with 0%Z by lia. change (Z.max 0 (- 0)) with 0%Z.
      change (Z.max 0 0) with 0%Z. rewrite !Z.pow_0_r. ring.
    + apply Z.leb_gt in He.
      assert (Hpow : (5 ^ Z.to_N (- e) <> 0)%N) by (apply N.pow_nonzero; discriminate).
      apply of_decimal_exact; [exact Hvalid | lia |].
      rewrite N2Z.inj_mul, N2Z.inj_pow, Z2N.id by lia.
      replace (Z.max 0 e) with 0%Z by lia. replace (Z.max 0 (- e)) with (- e)%Z by lia.
      rewrite !Z.pow_0_r. change (Z.of_N 5) with 5%Z. change (Z.of_N (Npos m)) with (Zpos m).
      change 10%Z with (5 * 2)%Z. rewrite Z.pow_mul_l. ring.
Qed.

(** Reading the numeral of a number gives the number. *)
Lemma parse_number_text (x : double) (rest : string) :
  valid_double x = true ->
  serializable (JNum x) = true ->
  delimited rest = true ->
  JSON.parse_number (JSON.number_text x ++ rest) = Some (x, rest).
Proof.
  intros Hvalid Hok Hr.
  destruct x as [| negative | negative | negative m e]; try discriminate Hok.
  - destruct negative; [discriminate |].
    apply (parse_number_parts false "0" "" None rest 0%N); (reflexivity || assumption).
  - pose proof (shortest_denotes m e Hvalid) as Hden.
    cbn [JSON.number_text Number_toString].
    destruct (shortest m e) as [s e10]. cbn [fst snd] in Hden.
    destruct s as [|p]; [discriminate Hden |].
    rewrite append_assoc, parse_number_numeral by exact Hr.
    f_equal. f_equal. now apply of_decimal_sign.
Qed.

Lemma digit_not_special (c : ascii) :
  (is_digit c || Ascii.eqb c "-") = true ->
  JSON.is_ws c = false /\ Ascii.eqb c "]" = false.
Proof. destruct c as [[] [] [] [] [] [] [] []]; intros H; try discriminate H; now repeat split. Qed.

(** A numeral begins with a digit or a minus sign. *)
Lemma number_text_head (x : double) (rest : string) :
  valid_double x = true ->
  serializable (JNum x) = true ->
  exists c s, JSON.number_text x ++ rest = String c s
              /\ (is_digit c || Ascii.eqb c "-") = true.
Proof.
  intros Hvalid Hok.
  destruct x as [| negative | negative | negative m e]; try discriminate Hok.
  - now exists "0"%char, rest.
  - pose proof (shortest_denotes m e Hvalid) as Hden.
    cbn [JSON.number_text Number_toString].
    destruct (shortest m e) as [s e10]. cbn [fst snd] in Hden.
    destruct negative; [now eexists _, _ |].
    destruct s as [|p]; [discriminate Hden |].
    destruct (numeral_parts p e10) as (int & fraction & exponent & i & -> & Hint & Hne & _).
    destruct int as [|c int]; [discriminate |].
    unfold all_digits in Hint. cbn in Hint. apply andb_prop in Hint as [Hc _].
    exists c. eexists. cbn [String.append]. split; [reflexivity |]. now rewrite Hc.
Qed.

(** ** JSON: values *)

(** Induction on JSON values, with the hypothesis available for every item
    of an array and every member of an object. *)
Lemma json_nested_ind (P : json -> Prop) :
  P JUndefined ->
  P JNull ->
  (forall b, P (JBool b)) ->
  (forall x, P (JNum x)) ->
  (forall s, P (JStr s)) ->
  (forall items, Forall P items -> P (JArr items)) ->
  (forall members, Forall (fun kv => P (snd kv)) members -> P (JObj members)) ->
  forall j, P j.
Proof.
  intros Hundefined Hnull Hbool Hnum Hstr Harr Hobj.
  fix IH 1. intros [| | b | x | s | items | members].
  - exact Hundefined.
  - exact Hnull.
  - apply Hbool.
  - apply Hnum.
  - apply Hstr.
  - apply Harr. induction items as [|x items IHitems]; constructor; [apply IH | exact IHitems].
  - apply Hobj. induction members as [|[k v] members IHm]; constructor; [apply IH | exact IHm].
Qed.

(** Where [JSON.stringify] returns a text, it is [text]. *)
Lemma stringify_text (j : json) :
  serializable j = true -> JSON.stringify j = Some (text j).
Proof. unfold text. destruct j; try reflexivity. discriminate. Qed.

Lemma text_JArr (items : list json) :
  text (JArr items) = "[" ++ join "," (map text items) ++ "]".
Proof. reflexivity. Qed.

(** Without a member that is left out, the text of an object is made of
    the texts of its members. *)
Lemma text_JObj (members : list (string * json)) :
  forallb (fun kv => serializable (snd kv)) members = true ->
  text (JObj members) = "{" ++ join "," (map member_text members) ++ "}".
Proof.
  intros H. unfold text at 1. cbn [JSON.stringify]. do 3 f_equal.
  induction members as [|[k v] members IH]; [reflexivity |].
  cbn [forallb snd] in H. apply andb_prop in H as [Hv H].
  cbn [map member_text]. rewrite (stringify_text v Hv), IH by exact H.
  unfold text at 2. now rewrite (stringify_text v Hv).
Qed.

(** The text of a value begins with a character that is neither white
    space nor a closing bracket. *)
Lemma text_head (j : json) (t : string) :
  well_formed j = true ->
  serializable j = true ->
  exists c s, text j ++ t = String c s
              /\ JSON.is_ws c = false /\ Ascii.eqb c "]" = false.
Proof.
  intros Hwf Hok.
  destruct j as [| | [] | x | s | items | members];
    try (eexists _, _; repeat split; fail).
  destruct (number_text_head x t Hwf Hok) as (c & s & E & Hc).
  destruct (digit_not_special c Hc) as [Hws Hb].
  exists c, s. now repeat split.
Qed.

Lemma length_join_cons (sep x : string) (y : string) (l : list string) :
  String.length (join sep (x :: y :: l)) =
  (String.length x + String.length sep + String.length (join sep (y :: l)))%nat.
Proof. unfold join. cbn [String.concat]. rewrite !length_append. lia. Qed.

Lemma skip_ws_head (c : ascii) (s : string) :
  JSON.is_ws c = false -> JSON.skip_ws (String c s) = String c s.
Proof. intros H. cbn [JSON.skip_ws]. now rewrite H. Qed.

(** The items of a non-empty array, up to the closing bracket. *)
Lemma parse_elements_text (items : list json) :
  items <> [] ->
  Forall parses_back items ->
  forall (fuel : nat) (rest : string),
    (String.length (join "," (map text items)) + 1 < fuel)%nat ->
    JSON.parse_elements fuel (join "," (map text items) ++ String "]" rest) =
    Some (items, rest).
Proof.
  intros Hne Hall. induction Hall as [| x items Hx Hall IH]; [congruence |].
  clear Hne. intros fuel rest Hfuel. destruct fuel as [|fuel]; [lia |].
  destruct items as [|y items].
  - cbn [map join String.concat] in *. cbn [JSON.parse_elements].
    rewrite Hx by (reflexivity || lia). reflexivity.
  - cbn [map] in Hfuel. rewrite length_join_cons in Hfuel. cbn [String.length] in Hfuel.
    assert (Hjoin : join "," (map text (x :: y :: items)) ++ String "]" rest =
                    text x ++
                    String "," (join "," (map text (y :: items)) ++ String "]" rest)).
    { cbn [map join String.concat]. rewrite !append_assoc. reflexivity. }
    rewrite Hjoin. cbn [JSON.parse_elements].
    rewrite Hx by (reflexivity || lia). rewrite skip_ws_head by reflexivity.
    cbv beta iota. rewrite IH by (congruence || (cbn [map] in *; lia)). reflexivity.
Qed.

Lemma member_text_append (k : string) (v : json) (t : string) :
  member_text (k, v) ++ t =
  String JSON.dquote (JSON.escape k ++ String JSON.dquote (String ":" (text v ++ t))).
Proof.
  unfold member_text. rewrite append_assoc. rewrite (proj1 (parse_quote k _)).
  cbn [String.append]. reflexivity.
Qed.

Lemma length_member_text (k : string) (v : json) :
  (String.length (text v) < String.length (member_text (k, v)))%nat.
Proof. unfold member_text, JSON.quote. cbn [String.length]. rewrite !length_append. simpl. lia. Qed.

(** The members of a non-empty object, up to the closing brace. *)
Lemma parse_members_text (members : list (string * json)) :
  members <> [] ->
  Forall (fun kv => parses_back (snd kv)) members ->
  forall (fuel : nat) (rest : string),
    (String.length (join "," (map member_text members)) + 1 < fuel)%nat ->
    JSON.parse_members fuel (join "," (map member_text members) ++ String "}" rest) =
    Some (members, rest).
Proof.
  intros Hne Hall. induction Hall as [| [k v] members Hv Hall IH]; [congruence |].
  clear Hne. cbn [snd] in Hv. intros fuel rest Hfuel. destruct fuel as [|fuel]; [lia |].
  pose proof (length_member_text k v) as Hlen.
  destruct members as [|kv members].
  - cbn [map join String.concat] in *. rewrite member_text_append.
    cbn [JSON.parse_members]. rewrite skip_ws_head by reflexivity.
    rewrite Ascii.eqb_refl, parse_escape. rewrite skip_ws_head by reflexivity.
    rewrite Hv by (reflexivity || lia). reflexivity.
  - cbn [map] in Hfuel. rewrite length_join_cons in Hfuel. cbn [String.length] in Hfuel.
    assert (Hjoin : join "," (map member_text ((k, v) :: kv :: members)) ++ String "}" rest =
                    member_text (k, v) ++
                    String "," (join "," (map member_text (kv :: members)) ++ String "}" rest)).
    { cbn [map join String.concat]. rewrite !append_assoc. reflexivity. }
    rewrite Hjoin, member_text_append.
    cbn [JSON.parse_members]. rewrite skip_ws_head by reflexivity.
    rewrite Ascii.eqb_refl, parse_escape. rewrite skip_ws_head by reflexivity.
    rewrite Hv by (reflexivity || lia). rewrite skip_ws_head by reflexivity.
    cbv beta iota. rewrite IH by (congruence || (cbn [map] in *; lia)). reflexivity.
Qed.

(** ** Objects in enumeration order *)

Lemma in_order_app {V} (a b : list (string * V)) :
  in_order (a ++ b)%list = true ->
  in_order a = true /\ in_order b = true
  /\ forall kv kv', In kv a -> In kv' b ->
       String.eqb (fst kv') (fst kv) = false /\ precedes (fst kv') (fst kv) = false.
Proof.
  induction a as [|[k v] a IH]; cbn [app in_order]; intros H.
  - now repeat split.
  - apply andb_prop in H as [Hhead Htail]. rewrite forallb_app in Hhead.
    apply andb_prop in Hhead as [Ha Hb].
    destruct (IH Htail) as (IHa & IHb & IHab).
    split; [now rewrite Ha, IHa | split; [exact IHb |]].
    intros kv kv' [<- | Hin] Hin'.
    + rewrite forallb_forall in Hb. specialize (Hb kv' Hin'). cbn [fst].
      apply andb_prop in Hb as [H1 H2].
      now rewrite negb_true_iff in H1, H2.
    + now apply IHab.
Qed.

(** Creating a key that no existing key has to follow appends it. *)
Lemma obj_create_last {V} (o : list (string * V)) (k : string) (v : V) :
  (forall kv, In kv o -> precedes k (fst kv) = false) ->
  obj_create k v o = (o ++ [(k, v)])%list.
Proof.
  induction o as [|[k' v'] o IH]; intros H; cbn [obj_create app]; [reflexivity |].
  pose proof (H (k', v') (or_introl eq_refl)) as Hk. cbn [fst] in Hk.
  rewrite Hk, IH; [reflexivity |].
  intros kv Hin. apply H. now right.
Qed.

Lemma obj_lookup_absent {V} (o : list (string * V)) (k : string) :
  (forall kv, In kv o -> String.eqb k (fst kv) = false) ->
  obj_lookup o k = None.
Proof.
  induction o as [|[k' v'] o IH]; intros H; cbn [obj_lookup]; [reflexivity |].
  pose proof (H (k', v') (or_introl eq_refl)) as Hk. cbn [fst] in Hk.
  rewrite String.eqb_sym, Hk. apply IH.
  intros kv Hin. apply H. now right.
Qed.

(** Defining the properties of an object one after the other, in their
    enumeration order, rebuilds the object. *)
Lemma obj_define_all_in_order {V} (source : list (string * V)) :
  forall target : list (string * V),
    in_order (target ++ source)%list = true ->
    obj_define_all target source = (target ++ source)%list.
Proof.
  unfold obj_define_all.
  induction source as [|[k v] source IH]; intros target H; cbn [fold_left].
  - now rewrite app_nil_r.
  - destruct (in_order_app target ((k, v) :: source) H) as (_ & _ & Hab).
    cbn [fst snd]. unfold obj_define.
    rewrite obj_lookup_absent by (intros kv Hin; apply (Hab kv (k, v) Hin); now left).
    rewrite obj_create_last by (intros kv Hin; apply (Hab kv (k, v) Hin); now left).
    rewrite IH; rewrite <- app_assoc; [reflexivity | exact H].
Qed.


(** [o[k] = v] keeps an object in enumeration order. *)

Lemma precedes_asym (k k' : string) : precedes k k' = true -> precedes k' k = false.
Proof.
  unfold precedes. destruct (array_index k) as [n|], (array_index k') as [n'|]; try easy.
  intros H. apply N.ltb_lt in H. apply N.ltb_ge. lia.
Qed.

Lemma precedes_before (k k0 k3 : string) :
  precedes k k0 = true -> precedes k3 k0 = false -> precedes k3 k = false.
Proof.
  unfold precedes.
  destruct (array_index k) as [n|], (array_index k0) as [n0|], (array_index k3) as [n3|];
    try easy.
  intros H H'. apply N.ltb_lt in H. apply N.ltb_ge in H'. apply N.ltb_ge. lia.
Qed.

Section EnumerationOrder.
Context {V : Type}.
Implicit Types (o : list (string * V)) (k : string) (v : V).

Lemma forallb_obj_replace (P : string -> bool) o k v :
  forallb (fun kv => P (fst kv)) (obj_replace k v o) = forallb (fun kv => P (fst kv)) o.
Proof.
  induction o as [|[k' v'] o IH]; cbn [obj_replace forallb]; [reflexivity |].
  destruct (String.eqb k' k); cbn [forallb fst]; [reflexivity | now rewrite IH].
Qed.

Lemma in_order_replace o k v : in_order (obj_replace k v o) = in_order o.
Proof.
  induction o as [|[k' v'] o IH]; cbn [obj_replace in_order]; [reflexivity |].
  destruct (String.eqb k' k); cbn [in_order]; [reflexivity |].
  rewrite IH. f_equal.
  apply (forallb_obj_replace (fun x => negb (String.eqb x k') && negb (precedes x k'))).
Qed.

Lemma forallb_obj_create (P : string * V -> bool) o k v :
  forallb P (obj_create k v o) = P (k, v) && forallb P o.
Proof.
  induction o as [|[k' v'] o IH]; cbn [obj_create forallb]; [reflexivity |].
  destruct (precedes k k'); cbn [forallb]; [reflexivity |].
  rewrite IH. now destruct (P (k, v)), (P (k', v')).
Qed.

Lemma in_order_create o k v :
  in_order o = true -> obj_lookup o k = None -> in_order (obj_create k v o) = true.
Proof.
  induction o as [|[k0 v0] o IH]; cbn [obj_create in_order obj_lookup]; intros Ho Hk;
    [reflexivity |].
  apply andb_prop in Ho as [Hhead Htail].
  destruct (String.eqb_spec k0 k) as [-> | Hne]; [discriminate |].
  destruct (precedes k k0) eqn:Hp.
  - cbn [in_order]. rewrite Hhead, Htail. cbn [forallb fst].
    rewrite (precedes_asym _ _ Hp).
    replace (String.eqb k0 k) with false by (symmetry; now apply String.eqb_neq).
    cbn [negb andb]. rewrite andb_true_r.
    apply forallb_forall. intros [k3 v3] Hin. cbn [fst].
    rewrite forallb_forall in Hhead. specialize (Hhead (k3, v3) Hin). cbn [fst] in Hhead.
    apply andb_prop in Hhead as [_ H3]. apply negb_true_iff in H3.
    rewrite (precedes_before _ _ _ Hp H3).
    destruct (String.eqb_spec k3 k) as [-> | _]; [| reflexivity].
    apply obj_lookup_keys in Hk. exfalso. apply Hk.
    unfold Object_keys. now apply (in_map fst _ (k, v3)).
  - cbn [in_order]. rewrite IH by assumption.
    rewrite (forallb_obj_create (fun kv => negb (String.eqb (fst kv) k0) &&
                                           negb (precedes (fst kv) k0))).
    cbn [fst]. rewrite Hhead, Hp.
    replace (String.eqb k k0) with false by (symmetry; apply String.eqb_neq; congruence).
    reflexivity.
Qed.

Lemma in_order_define o k v : in_order o = true -> in_order (obj_define k v o) = true.
Proof.
  intros Ho. unfold obj_define. destruct (obj_lookup o k) eqn:E.
  - now rewrite in_order_replace.
  - now apply in_order_create.
Qed.

Lemma in_order_set o k v : in_order o = true -> in_order (obj_set k v o) = true.
Proof.
  intros Ho. unfold obj_set. destruct (reaches_setter o k); [exact Ho |].
  now apply in_order_define.
Qed.

Lemma in_order_assign (source : list (string * V)) :
  forall target, in_order target = true -> in_order (Object_assign target source) = true.
Proof.
  unfold Object_assign. induction source as [|[k v] source IH]; intros target Ht; [exact Ht |].
  cbn [fold_left fst snd]. apply IH. now apply in_order_set.
Qed.

(** A property of the values that holds for the target and the source holds
    for the result of [Object.assign]. *)
Lemma forallb_replace_value (P : V -> bool) o k v :
  P v = true ->
  forallb (fun kv => P (snd kv)) o = true ->
  forallb (fun kv => P (snd kv)) (obj_replace k v o) = true.
Proof.
  intros Hv. induction o as [|[k' v'] o IH]; cbn [obj_replace forallb]; [reflexivity |].
  intros H. apply andb_prop in H as [H1 H2].
  destruct (String.eqb k' k); cbn [forallb snd] in *.
  - now rewrite Hv, H2.
  - now rewrite H1, IH.
Qed.

Lemma forallb_assign (P : V -> bool) (source : list (string * V)) :
  forall target,
    forallb (fun kv => P (snd kv)) target = true ->
    forallb (fun kv => P (snd kv)) source = true ->
    forallb (fun kv => P (snd kv)) (Object_assign target source) = true.
Proof.
  unfold Object_assign. induction source as [|[k v] source IH]; intros target Ht Hs; [exact Ht |].
  cbn [fold_left fst snd forallb] in *. apply andb_prop in Hs as [Hv Hs].
  apply IH; [| exact Hs]. unfold obj_set, obj_define.
  destruct (reaches_setter target k); [exact Ht |]. destruct (obj_lookup target k).
  - now apply forallb_replace_value.
  - rewrite (forallb_obj_create (fun kv => P (snd kv))). cbn [snd]. now rewrite Hv, Ht.
Qed.
End EnumerationOrder.

(** ** JSON: the round trip *)

Lemma parse_value_text (j : json) :
  well_formed j = true -> serializable j = true -> parses_back j.
Proof.
  induction j as [| | b | x | s | items IH | members IH] using json_nested_ind;
    intros Hwf Hok fuel rest Hfuel Hrest; (destruct fuel as [|fuel]; [lia |]).
  - discriminate.
  - reflexivity.
  - destruct b; reflexivity.
  - destruct (number_text_head x rest Hwf Hok) as (c & s & E & Hc).
    destruct (digit_not_special c Hc) as [Hws _].
    change (text (JNum x)) with (JSON.number_text x).
    cbn [JSON.parse_value]. rewrite E, skip_ws_head, Hc by exact Hws.
    rewrite <- E. now rewrite parse_number_text.
  - change (text (JStr s)) with (JSON.quote s).
    cbn [JSON.parse_value]. rewrite (proj1 (parse_quote s rest)).
    rewrite skip_ws_head by reflexivity.
    change (is_digit JSON.dquote || Ascii.eqb JSON.dquote "-") with false.
    cbv beta iota. rewrite Ascii.eqb_refl, parse_escape. reflexivity.
  - destruct items as [|x items]; [reflexivity |].
    change (forallb well_formed (x :: items) = true) in Hwf.
    change (forallb serializable (x :: items) = true) in Hok.
    rewrite text_JArr in *. rewrite !length_append in Hfuel. cbn [String.length] in Hfuel.
    change (("[" ++ join "," (map text (x :: items)) ++ "]") ++ rest)
      with (String "[" ((join "," (map text (x :: items)) ++ "]") ++ rest)).
    rewrite append_assoc. change ("]" ++ rest) with (String "]" rest).
    cbn [JSON.parse_value]. rewrite skip_ws_head by reflexivity.
    change (is_digit "[" || Ascii.eqb "[" "-") with false.
    change (Ascii.eqb "[" JSON.dquote) with false. cbv beta iota.
    assert (Hclosing : JSON.closing "]"
              (JSON.skip_ws (join "," (map text (x :: items)) ++ String "]" rest)) = None).
    { assert (Hhead : exists t, join "," (map text (x :: items)) ++ String "]" rest =
                                text x ++ t).
      { destruct items as [|y items]; cbn [map join String.concat]; [now eexists |].
        rewrite !append_assoc. now eexists. }
      destruct Hhead as [t ->].
      cbn [forallb] in Hwf, Hok.
      apply andb_prop in Hwf as [Hx _]. apply andb_prop in Hok as [Hx' _].
      destruct (text_head x t Hx Hx') as (c & s & -> & Hws & Hb).
      rewrite skip_ws_head by exact Hws. cbn [JSON.closing]. now rewrite Hb. }
    rewrite Hclosing.
    rewrite parse_elements_text; [reflexivity | congruence | | lia].
    rewrite List.Forall_forall in IH |- *. intros y Hy.
    rewrite forallb_forall in Hwf, Hok. apply IH; [exact Hy | now apply Hwf | now apply Hok].
  - destruct members as [|[k v] members]; [reflexivity |].
    change (in_order ((k, v) :: members) &&
            forallb (fun kv => well_formed (snd kv)) ((k, v) :: members) = true) in Hwf.
    change (forallb (fun kv => serializable (snd kv)) ((k, v) :: members) = true) in Hok.
    apply andb_prop in Hwf as [Horder Hwf].
    rewrite (text_JObj _ Hok) in *. rewrite !length_append in Hfuel.
    cbn [String.length] in Hfuel.
    change (("{" ++ join "," (map member_text ((k, v) :: members)) ++ "}") ++ rest)
      with (String "{" ((join "," (map member_text ((k, v) :: members)) ++ "}") ++ rest)).
    rewrite append_assoc. change ("}" ++ rest) with (String "}" rest).
    cbn [JSON.parse_value]. rewrite skip_ws_head by reflexivity.
    change (is_digit "{" || Ascii.eqb "{" "-") with false.
    change (Ascii.eqb "{" JSON.dquote) with false. cbv beta iota.
    assert (Hclosing : JSON.closing "}"
              (JSON.skip_ws (join "," (map member_text ((k, v) :: members)) ++ String "}" rest)) = None).
    { assert (Hhead : exists t, join "," (map member_text ((k, v) :: members)) ++ String "}" rest =
                                member_text (k, v) ++ t).
      { destruct members as [|kv members]; cbn [map join String.concat]; [now eexists |].
        rewrite !append_assoc. now eexists. }
      destruct Hhead as [t ->]. rewrite member_text_append.
      rewrite skip_ws_head by reflexivity. reflexivity. }
    rewrite Hclosing.
    rewrite parse_members_text; [| congruence | | lia].
    + now rewrite (obj_define_all_in_order _ [] Horder).
    + rewrite List.Forall_forall in IH |- *. intros [k' v'] Hin.
      rewrite forallb_forall in Hwf, Hok.
      apply (IH (k', v') Hin); [exact (Hwf (k', v') Hin) | exact (Hok (k', v') Hin)].
Qed.

(** [JSON.parse] inverts [JSON.stringify]. *)
Lemma JSON_parse_stringify (j : json) :
  well_formed j = true ->
  serializable j = true ->
  JSON.stringify j = Some (text j) /\ JSON.parse (text j) = Return j.
Proof.
  intros Hwf Hok. split; [now apply stringify_text |]. unfold JSON.parse.
  pose proof (parse_value_text j Hwf Hok (S (String.length (text j))) ""
                ltac:(lia) eq_refl) as H.
  rewrite append_empty_r in H. rewrite H. reflexivity.
Qed.

(** ** encodeJwt_ and decodeJwt_ *)

Lemma getDataAsString_newBlob (text : string) :
  Utilities.getDataAsString (Utilities.newBlob (list_ascii_of_string text)) = text.
Proof. apply string_of_list_ascii_of_string. Qed.

(** Decoding the base64url text of the text of a value gives the value
    back. *)
Lemma decode_segment_encode (j : json) :
  well_formed j = true ->
  serializable j = true ->
  decode_segment (base64url (text j)) = Return j.
Proof.
  intros Hwf Hok. unfold decode_segment, base64url, Utilities.base64DecodeWebSafe.
  rewrite base64_decode_encode. cbn [bind].
  rewrite getDataAsString_newBlob. now apply JSON_parse_stringify.
Qed.

Lemma decodeJwt_segment (jwt : string) :
  decodeJwt_ jwt =
  match nth_error (split "." jwt) 1 with
  | Some segment => decode_segment segment
  | None => Throw (TypeError "base64DecodeWebSafe: the argument is not a string")
  end.
Proof. unfold decodeJwt_, decode_segment. now destruct (nth_error (split "." jwt) 1). Qed.

(** The segments of a token whose first two segments hold no dot. *)
Lemma split_token (h p signature : string) :
  dot_free h = true -> dot_free p = true ->
  split "." ((h ++ "." ++ p) ++ "." ++ signature) = h :: p :: split "." signature.
Proof.
  intros Hh Hp. rewrite !append_assoc.
  change ("." ++ p ++ "." ++ signature) with (String "." (p ++ String "." signature)).
  rewrite split_segment by exact Hh. now rewrite split_segment by exact Hp.
Qed.

Lemma base64url_dot_free (data : string) : dot_free (base64url data) = true.
Proof. apply base64_encode_dot_free. Qed.

Section JwtFacts.
Variable computeRsaSha256Signature : string -> string -> list ascii.

(** [encodeJwt_] returns a token when the payload has a text, and throws
    otherwise; the header always has one. *)
Lemma encodeJwt_unfold (payload : json) (key : string) (customOptions : option Options) :
  encodeJwt_ computeRsaSha256Signature payload key customOptions =
  match JSON.stringify payload with
  | Some payload_text =>
      let toSign :=
        base64url (text (JObj (merged_header customOptions))) ++ "." ++ base64url payload_text in
      Return (toSign ++ "." ++ signer computeRsaSha256Signature customOptions toSign key)
  | None => Throw (TypeError "base64EncodeWebSafe: the argument is not a string")
  end.
Proof.
  unfold encodeJwt_, merged_header, signer, text.
  destruct customOptions as [[[h|] [f|]]|]; cbn [header computeJWTSignature JSON.stringify];
    cbn [Utilities.base64EncodeWebSafe bind]; destruct (JSON.stringify payload); reflexivity.
Qed.

(** C1.  For a payload that is JSON data (its objects and numbers
    satisfying the representation invariant), [encodeJwt_] returns a token,
    and decoding the token returns the payload, whatever the key, the
    header overrides and the signing function are.  The decoder does not
    look at the signature: with any text in the place of the signature, and
    any dot-free text in the place of the header, the result is the same. *)
Theorem decodeJwt_encodeJwt_round_trip :
  (forall (payload : json) (key : string) (customOptions : option Options),
      well_formed payload = true ->
      serializable payload = true ->
      exists token : string,
        encodeJwt_ computeRsaSha256Signature payload key customOptions = Return token
        /\ decodeJwt_ token = Return payload)
  /\ (forall (payload : json) (payload_text h signature : string),
        well_formed payload = true ->
        serializable payload = true ->
        JSON.stringify payload = Some payload_text ->
        dot_free h = true ->
        decodeJwt_ ((h ++ "." ++ base64url payload_text) ++ "." ++ signature) = Return payload).
Proof.
  assert (Hany : forall (payload : json) (payload_text h signature : string),
             well_formed payload = true ->
             serializable payload = true ->
             JSON.stringify payload = Some payload_text ->
             dot_free h = true ->
             decodeJwt_ ((h ++ "." ++ base64url payload_text) ++ "." ++ signature) =
             Return payload).
  { intros payload payload_text h signature Hwf Hok Htext Hh.
    rewrite (stringify_text payload Hok) in Htext. injection Htext as <-.
    rewrite decodeJwt_segment, split_token by (exact Hh || apply base64url_dot_free).
    cbn [nth_error]. now apply decode_segment_encode. }
  split; [| exact Hany].
  intros payload key customOptions Hwf Hok.
  rewrite encodeJwt_unfold, (stringify_text payload Hok). cbv zeta.
  eexists. split; [reflexivity |].
  apply Hany; [exact Hwf | exact Hok | now apply stringify_text | apply base64url_dot_free].
Qed.

Lemma obj_lookup_rev {V} (o : list (string * V)) (k : string) :
  List.NoDup (Object_keys o) -> obj_lookup (rev o) k = obj_lookup o k.
Proof.
  induction o as [|[k0 v0] o IH]; cbn [rev Object_keys map]; intros Hnd; [reflexivity |].
  inversion Hnd as [|? ? Hnin Hnd']; subst. cbn [fst] in Hnin.
  rewrite obj_lookup_app, IH by exact Hnd'. cbn [obj_lookup].
  destruct (String.eqb_spec k0 k) as [-> | _].
  - apply obj_lookup_keys in Hnin. now rewrite Hnin.
  - now destruct (obj_lookup o k).
Qed.

(** The header that is serialized is JSON data when the overrides are. *)
Lemma merged_header_data (overrides : list (string * json)) :
  forallb (fun kv => well_formed (snd kv)) overrides = true ->
  forallb (fun kv => serializable (snd kv)) overrides = true ->
  let merged := Object_assign [("alg", JStr "RS256"); ("typ", JStr "JWT")] overrides in
  well_formed (JObj merged) = true /\ serializable (JObj merged) = true.
Proof.
  intros Hwf Hok merged. split.
  - change (in_order merged && forallb (fun kv => well_formed (snd kv)) merged = true).
    apply andb_true_intro. split.
    + subst merged. now apply in_order_assign.
    + subst merged. now apply forallb_assign.
  - change (forallb (fun kv => serializable (snd kv)) merged = true).
    subst merged. now apply forallb_assign.
Qed.

(** C2, as stated, fails for an override that is [undefined]: the header
    that is merged has the property [alg], with the value [undefined],
    and the header segment decodes to a header without [alg].  It also
    fails for an override named [__proto__], which the merged header never
    gets. *)
Lemma encodeJwt_header_not_merged :
  (let H := [("alg", JUndefined)] in
   let merged := Object_assign [("alg", JStr "RS256"); ("typ", JStr "JWT")] H in
   exists token header_segment : string,
     encodeJwt_ (fun _ _ => []) JNull "key"
       (Some {| header := Some H; computeJWTSignature := Some example_signer |}) = Return token
     /\ nth_error (split "." token) 0 = Some header_segment
     /\ decode_segment header_segment = Return (JObj [("typ", JStr "JWT")])
     /\ merged = [("alg", JUndefined); ("typ", JStr "JWT")]
     /\ decode_segment header_segment <> Return (JObj merged))
  /\ (let H := [("__proto__", JStr "p"); ("kid", JStr "k")] in
      let merged := Object_assign [("alg", JStr "RS256"); ("typ", JStr "JWT")] H in
      obj_lookup H "__proto__" = Some (JStr "p")
      /\ obj_lookup merged "__proto__" = None
      /\ merged = [("alg", JStr "RS256"); ("typ", JStr "JWT"); ("kid", JStr "k")]).
Proof.
  split.
  - cbv zeta. eexists _, _. split; [vm_compute; reflexivity |].
    split; [vm_compute; reflexivity |].
    split; [vm_compute; reflexivity |].
    split; [reflexivity |].
    vm_compute. discriminate.
  - cbv zeta. repeat split.
Qed.

(** C2, amended.  With header overrides [H] (none when absent) and a
    signing function [f], for a payload that [JSON.stringify] gives a text
    for, the token is the header segment, a dot, the payload segment, a
    dot, and the text that [f] returns for the first two segments joined by
    a dot and the key.  The header segment is the base64url text of the JSON text of the
    default header with the overrides assigned onto it.  In that header a
    key other than [__proto__] reads the caller's value when the caller
    gives one and the default otherwise; and when the override values are
    JSON data the header segment decodes to that header.  Splitting the
    token on dots gives the two segments followed by the pieces of the
    signature. *)
Theorem encodeJwt_token_format :
  forall (payload : json) (key : string) (H : option (list (string * json)))
         (f : string -> string -> string),
    let defaults := [("alg", JStr "RS256"); ("typ", JStr "JWT")] in
    let overrides := match H with Some h => h | None => [] end in
    let merged := Object_assign defaults overrides in
    let header_segment := base64url (text (JObj merged)) in
    let result :=
      encodeJwt_ computeRsaSha256Signature payload key
        (Some {| header := H; computeJWTSignature := Some f |}) in
    JSON.stringify (JObj merged) = Some (text (JObj merged))
    /\ (forall payload_text : string,
          JSON.stringify payload = Some payload_text ->
          let payload_segment := base64url payload_text in
          let token := header_segment ++ "." ++ payload_segment ++ "." ++
                       f (header_segment ++ "." ++ payload_segment) key in
          result = Return token
          /\ split "." token =
             header_segment :: payload_segment ::
             split "." (f (header_segment ++ "." ++ payload_segment) key))
    /\ (List.NoDup (Object_keys overrides) ->
        forall k : string,
          k <> "__proto__" ->
          obj_lookup merged k =
          match obj_lookup overrides k with
          | Some v => Some v
          | None => obj_lookup defaults k
          end)
    /\ (forallb (fun kv => well_formed (snd kv)) overrides = true ->
        forallb (fun kv => serializable (snd kv)) overrides = true ->
        decode_segment header_segment = Return (JObj merged)).
Proof.
  intros payload key H f defaults overrides merged header_segment result.
  assert (Hresult : result =
            match JSON.stringify payload with
            | Some payload_text =>
                Return ((header_segment ++ "." ++ base64url payload_text) ++ "." ++
                        f (header_segment ++ "." ++ base64url payload_text) key)
            | None => Throw (TypeError "base64EncodeWebSafe: the argument is not a string")
            end).
  { subst result. rewrite encodeJwt_unfold. destruct H; reflexivity. }
  split; [reflexivity | split; [| split]].
  - intros payload_text Htext payload_segment token. rewrite Hresult, Htext. split.
    + subst token. now rewrite !append_assoc.
    + subst token.
      replace (header_segment ++ "." ++ payload_segment ++ "." ++
               f (header_segment ++ "." ++ payload_segment) key)
        with ((header_segment ++ "." ++ payload_segment) ++ "." ++
              f (header_segment ++ "." ++ payload_segment) key)
        by now rewrite !append_assoc.
      apply split_token; apply base64url_dot_free.
  - intros Hnd k Hk. subst merged. rewrite Object_assign_lookup.
    rewrite reaches_setter_other by exact Hk.
    now rewrite obj_lookup_rev by exact Hnd.
  - intros Hwf Hok. destruct (merged_header_data overrides Hwf Hok).
    now apply decode_segment_encode.
Qed.
End JwtFacts.

(** C9.  [decodeJwt_] depends on its argument through the second
    dot-separated segment only: two tokens with the same second segment, or
    both without one, give the same result or the same exception.  So the
    header segment, the signature and any further segments have no
    influence. *)
Theorem decodeJwt_second_segment_only :
  (forall jwt1 jwt2 : string,
      nth_error (split "." jwt1) 1 = nth_error (split "." jwt2) 1 ->
      decodeJwt_ jwt1 = decodeJwt_ jwt2)
  /\ (forall h1 h2 p rest1 rest2 : string,
        dot_free h1 = true -> dot_free h2 = true -> dot_free p = true ->
        decodeJwt_ ((h1 ++ "." ++ p) ++ "." ++ rest1) =
        decodeJwt_ ((h2 ++ "." ++ p) ++ "." ++ rest2)).
Proof.
  assert (Hsame : forall jwt1 jwt2 : string,
             nth_error (split "." jwt1) 1 = nth_error (split "." jwt2) 1 ->
             decodeJwt_ jwt1 = decodeJwt_ jwt2).
  { intros jwt1 jwt2 Heq. rewrite !decodeJwt_segment. now rewrite Heq. }
  split; [exact Hsame |].
  intros h1 h2 p rest1 rest2 H1 H2 Hp. apply Hsame.
  now rewrite !split_token by assumption.
Qed.

Lemma decodeJwt_second_segment_only_witness :
  decodeJwt_ "abc.e30.sig" = decodeJwt_ "e30.e30"
  /\ decodeJwt_ (("h1" ++ "." ++ "e30=") ++ "." ++ "s1.more.parts") =
     decodeJwt_ (("" ++ "." ++ "e30=") ++ "." ++ "").
Proof.
  split.
  - apply (proj1 decodeJwt_second_segment_only). reflexivity.
  - apply (proj2 decodeJwt_second_segment_only); reflexivity.
Defined.

Lemma decodeJwt_encodeJwt_round_trip_witness :
  (exists token : string,
      encodeJwt_ (fun _ _ => []) example_payload "secret" (Some example_options) = Return token
      /\ decodeJwt_ token = Return example_payload)
  /\ decodeJwt_ (("x" ++ "." ++ base64url (text example_payload)) ++ "." ++ "not a signature") =
     Return example_payload.
Proof.
  split.
  - apply (proj1 (decodeJwt_encodeJwt_round_trip (fun _ _ => []))); reflexivity.
  - apply (proj2 (decodeJwt_encodeJwt_round_trip (fun _ _ => []))); reflexivity.
Defined.

Lemma encodeJwt_token_format_witness :
  obj_lookup (Object_assign [("alg", JStr "RS256"); ("typ", JStr "JWT")]
                            [("kid", JStr "k1"); ("alg", JStr "none")]) "alg" =
  Some (JStr "none")
  /\ decode_segment
       (base64url
          (text (JObj (Object_assign [("alg", JStr "RS256"); ("typ", JStr "JWT")]
                                     [("kid", JStr "k1"); ("alg", JStr "none")])))) =
     Return (JObj [("alg", JStr "none"); ("typ", JStr "JWT"); ("kid", JStr "k1")]).
Proof.
  destruct (encodeJwt_token_format (fun _ _ => []) example_payload "secret"
              (Some [("kid", JStr "k1"); ("alg", JStr "none")]) example_signer)
    as (_ & _ & Hlookup & Hdecode).
  split.
  - rewrite Hlookup; [reflexivity | | discriminate].
    repeat constructor; simpl; intuition discriminate.
  - apply Hdecode; reflexivity.
Defined.


(* ===================================================================== *)
(** * Part III: further properties of the code                            *)
(* ===================================================================== *)

(** ** buildUrl_: composition and unambiguity *)

Lemma buildUrl_entries (url : string) (params : list (string * string)) :
  List.NoDup (Object_keys params) ->
  buildUrl_ url params = url ++ separator url ++ join "&" (map pair_text params).
Proof.
  intros Hnd. unfold buildUrl_, param, separator.
  rewrite indexOf_char. do 3 f_equal.
  apply (map_keys_entries
           (fun k ov => encodeURIComponent k ++ "=" ++
                        encodeURIComponent (match ov with Some v => v | None => "undefined" end))).
  exact Hnd.
Qed.

Lemma existsb_append (c : ascii) (a b : string) :
  existsb (Ascii.eqb c) (list_ascii_of_string (a ++ b)) =
  existsb (Ascii.eqb c) (list_ascii_of_string a) || existsb (Ascii.eqb c) (list_ascii_of_string b).
Proof. now rewrite list_ascii_of_append, existsb_app. Qed.

(** Whatever the base URL, the result holds a question mark. *)
Lemma buildUrl_has_question_mark (url : string) (params : list (string * string)) :
  existsb (Ascii.eqb "?") (list_ascii_of_string (buildUrl_ url params)) = true.
Proof.
  unfold buildUrl_. rewrite indexOf_char, !existsb_append.
  destruct (existsb (Ascii.eqb "?") (list_ascii_of_string url)); reflexivity.
Qed.

Lemma join_app (sep : string) (a b : list string) :
  a <> [] -> b <> [] ->
  join sep (a ++ b)%list = join sep a ++ sep ++ join sep b.
Proof.
  intros Ha Hb. induction a as [|x a IH]; [congruence |].
  destruct a as [|y a].
  - destruct b as [|z b]; [congruence | reflexivity].
  - change (join sep ((x :: y :: a) ++ b)%list) with (x ++ sep ++ join sep ((y :: a) ++ b)%list).
    rewrite IH by congruence.
    change (join sep (x :: y :: a)) with (x ++ sep ++ join sep (y :: a)).
    now rewrite !append_assoc.
Qed.

(** X1.  Adding parameters in two calls gives the URL that one call with
    all the parameters gives, when neither map is empty: the second call
    finds the question mark that the first call left and continues with an
    ampersand. *)
Theorem buildUrl_twice (url : string) (params1 params2 : list (string * string)) :
  params1 <> [] -> params2 <> [] ->
  List.NoDup (Object_keys (params1 ++ params2)%list) ->
  buildUrl_ (buildUrl_ url params1) params2 = buildUrl_ url (params1 ++ params2)%list.
Proof.
  intros H1 H2 Hnd.
  assert (Hnd1 : List.NoDup (Object_keys params1)).
  { unfold Object_keys in *. rewrite map_app in Hnd. now apply NoDup_app_remove_r in Hnd. }
  assert (Hnd2 : List.NoDup (Object_keys params2)).
  { unfold Object_keys in *. rewrite map_app in Hnd. now apply NoDup_app_remove_l in Hnd. }
  rewrite (buildUrl_entries (buildUrl_ url params1) params2 Hnd2).
  unfold separator at 1. rewrite buildUrl_has_question_mark.
  rewrite !buildUrl_entries by assumption.
  rewrite map_app, join_app by (destruct params1, params2; simpl; congruence).
  now rewrite !append_assoc.
Qed.

Lemma buildUrl_twice_witness :
  buildUrl_ (buildUrl_ "https://x.com/a" [("client id", "a&b")]) [("scope", "x y")] =
  buildUrl_ "https://x.com/a" [("client id", "a&b"); ("scope", "x y")].
Proof.
  apply (buildUrl_twice "https://x.com/a" [("client id", "a&b")] [("scope", "x y")]).
  - discriminate.
  - discriminate.
  - repeat constructor; simpl; intuition discriminate.
Defined.

Lemma lacks_append (c : ascii) (a b : string) :
  lacks c (a ++ b) = lacks c a && lacks c b.
Proof. unfold lacks. now rewrite list_ascii_of_append, forallb_app. Qed.

Lemma split_piece (c : ascii) (a b : string) :
  lacks c a = true -> split c (a ++ String c b) = a :: split c b.
Proof.
  unfold lacks. induction a as [|x a IH]; simpl; intros H.
  - now rewrite Ascii.eqb_refl.
  - apply andb_prop in H as [Hx Ha]. apply negb_true_iff in Hx. rewrite Hx.
    now rewrite IH.
Qed.

Lemma split_whole (c : ascii) (a : string) :
  lacks c a = true -> split c a = [a].
Proof.
  unfold lacks. induction a as [|x a IH]; simpl; intros H; [reflexivity |].
  apply andb_prop in H as [Hx Ha]. apply negb_true_iff in Hx. rewrite Hx.
  now rewrite IH.
Qed.

(** Splitting a joined list whose pieces lack the separator gives the
    pieces back. *)
Lemma split_join (c : ascii) (l : list string) :
  l <> [] ->
  forallb (lacks c) l = true ->
  split c (join (String c "") l) = l.
Proof.
  intros Hne Hall. induction l as [|x l IH]; [congruence |].
  cbn [forallb] in Hall. apply andb_prop in Hall as [Hx Hl].
  destruct l as [|y l].
  - now apply split_whole.
  - change (join (String c "") (x :: y :: l)) with (x ++ String c (join (String c "") (y :: l))).
    rewrite split_piece by exact Hx. f_equal. apply IH; [congruence | exact Hl].
Qed.

Lemma encodeURIComponent_lacks (c : ascii) (s : string) :
  uri_safe c = false -> lacks c (encodeURIComponent s) = true.
Proof.
  intros Hc. unfold lacks. pose proof (encodeURIComponent_safe s) as Hsafe.
  rewrite forallb_forall in Hsafe. apply forallb_forall. intros x Hx.
  apply negb_true_iff. destruct (Ascii.eqb_spec x c) as [-> | _]; [| reflexivity].
  rewrite (Hsafe c Hx) in Hc. discriminate.
Qed.

Lemma pair_text_lacks_ampersand (kv : string * string) : lacks "&" (pair_text kv) = true.
Proof.
  unfold pair_text. rewrite !lacks_append, !encodeURIComponent_lacks by reflexivity.
  reflexivity.
Qed.

Lemma split_pair_text (kv : string * string) :
  split "=" (pair_text kv) = [encodeURIComponent (fst kv); encodeURIComponent (snd kv)].
Proof.
  unfold pair_text. change ("=" ++ encodeURIComponent (snd kv))
    with (String "=" (encodeURIComponent (snd kv))).
  rewrite split_piece, split_whole by (apply encodeURIComponent_lacks; reflexivity).
  reflexivity.
Qed.

(** X2.  The parameters can be read back from the URL without ambiguity:
    the text after the base URL and its separator, split on ampersands and
    then on equals signs, is exactly the list of the encoded keys and
    values, so no key or value can add, remove or change a parameter. *)
Theorem buildUrl_query_splits (url : string) (params : list (string * string)) :
  params <> [] ->
  List.NoDup (Object_keys params) ->
  exists query : string,
    buildUrl_ url params = url ++ separator url ++ query
    /\ map (split "=") (split "&" query) =
       map (fun kv => [encodeURIComponent (fst kv); encodeURIComponent (snd kv)]) params.
Proof.
  intros Hne Hnd. exists (join "&" (map pair_text params)). split.
  - now apply buildUrl_entries.
  - rewrite split_join.
    + rewrite map_map. apply map_ext. intros kv. apply split_pair_text.
    + destruct params; [congruence | discriminate].
    + rewrite forallb_forall. intros x Hx. apply in_map_iff in Hx as (kv & <- & _).
      apply pair_text_lacks_ampersand.
Qed.

Lemma buildUrl_query_splits_witness :
  exists query : string,
    buildUrl_ "https://x.com/a?v=1" [("redirect_uri", "https://y.com/cb?a=1&b=2"); ("s&t", "=")] =
    "https://x.com/a?v=1" ++ separator "https://x.com/a?v=1" ++ query
    /\ map (split "=") (split "&" query) =
       [["redirect_uri"; "https%3A%2F%2Fy.com%2Fcb%3Fa%3D1%26b%3D2"]; ["s%26t"; "%3D"]].
Proof.
  apply (buildUrl_query_splits "https://x.com/a?v=1"
           [("redirect_uri", "https://y.com/cb?a=1&b=2"); ("s&t", "=")]).
  - discriminate.
  - repeat constructor; simpl; intuition discriminate.
Defined.

(** *** encodeURIComponent is injective *)

Lemma hex_upper_value (n : N) : (n < 16)%N -> JSON.hex_value (hex_upper n) = Some n.
Proof.
  intros H. rewrite <- (N2Nat.id n). assert (Hlt : (N.to_nat n < 16)%nat) by lia.
  clear H. revert Hlt. generalize (N.to_nat n). clear n. intros m Hlt.
  do 16 (destruct m as [|m]; [reflexivity |]). lia.
Qed.

Lemma percent_encode_inj (a b : ascii) : percent_encode a = percent_encode b -> a = b.
Proof.
  unfold percent_encode. intros H. injection H as H1 H2.
  pose proof (char_code_bound a) as Ha. pose proof (char_code_bound b) as Hb.
  apply (f_equal JSON.hex_value) in H1, H2.
  rewrite !hex_upper_value in H1, H2 by div_mod_lia.
  injection H1 as H1. injection H2 as H2.
  rewrite <- (ascii_N_embedding a), <- (ascii_N_embedding b). f_equal.
  unfold char_code in *. div_mod_lia.
Qed.

Lemma encodeURIComponent_inj (a : string) :
  forall b : string, encodeURIComponent a = encodeURIComponent b -> a = b.
Proof.
  induction a as [|x a IH]; intros [|y b]; cbn [encodeURIComponent]; intros H.
  - reflexivity.
  - destruct (uri_unreserved y); discriminate H.
  - destruct (uri_unreserved x); discriminate H.
  - destruct (uri_unreserved x) eqn:Ex, (uri_unreserved y) eqn:Ey.
    + injection H as -> H. f_equal. now apply IH.
    + injection H as -> _. discriminate Ex.
    + injection H as <- _. discriminate Ey.
    + unfold percent_encode in H. cbn [String.append] in H.
      injection H as H1 H2 H3. f_equal; [| now apply IH].
      apply percent_encode_inj. unfold percent_encode. now rewrite H1, H2.
Qed.

Lemma append_inv_head (a b c : string) : a ++ b = a ++ c -> b = c.
Proof. induction a as [|x a IH]; simpl; intros H; [exact H |]. injection H as H. now apply IH. Qed.

Lemma pair_text_inj (kv kv' : string * string) : pair_text kv = pair_text kv' -> kv = kv'.
Proof.
  intros H. apply (f_equal (split "=")) in H. rewrite !split_pair_text in H.
  injection H as Hk Hv. apply encodeURIComponent_inj in Hk, Hv.
  destruct kv, kv'. simpl in *. congruence.
Qed.

Lemma pair_text_not_empty (kv : string * string) : pair_text kv <> "".
Proof.
  unfold pair_text. destruct (encodeURIComponent (fst kv)); discriminate.
Qed.

Lemma join_pair_text_inj (p p' : list (string * string)) :
  join "&" (map pair_text p) = join "&" (map pair_text p') -> p = p'.
Proof.
  intros H.
  assert (Hsplit : forall q : list (string * string),
             q <> [] -> split "&" (join "&" (map pair_text q)) = map pair_text q).
  { intros q Hq. apply split_join.
    - destruct q; [congruence | discriminate].
    - rewrite forallb_forall. intros x Hx. apply in_map_iff in Hx as (kv & <- & _).
      apply pair_text_lacks_ampersand. }
  assert (Hempty : forall (kv : string * string) q, join "&" (map pair_text (kv :: q)) <> "").
  { intros kv q E. destruct q as [|kv' q]; cbn [map join String.concat] in E.
    - now apply (pair_text_not_empty kv).
    - apply (pair_text_not_empty kv). destruct (pair_text kv); [reflexivity | discriminate]. }
  destruct p as [|kv p], p' as [|kv' p'].
  - reflexivity.
  - symmetry in H. now apply Hempty in H.
  - now apply Hempty in H.
  - apply (f_equal (split "&")) in H. rewrite !Hsplit in H by congruence.
    revert H. generalize (kv :: p) (kv' :: p'). clear.
    induction l as [|x l IH]; intros [|y l']; cbn [map]; intros H; try discriminate;
      [reflexivity |].
    injection H as Hx Hl. f_equal; [now apply pair_text_inj | now apply IH].
Qed.

(** X3.  For a given base URL, two different parameter maps give two
    different URLs: a value cannot pass for further parameters. *)
Theorem buildUrl_injective (url : string) (params params' : list (string * string)) :
  List.NoDup (Object_keys params) ->
  List.NoDup (Object_keys params') ->
  params <> params' ->
  buildUrl_ url params <> buildUrl_ url params'.
Proof.
  intros Hnd Hnd' Hne H. apply Hne. rewrite !buildUrl_entries in H by assumption.
  apply append_inv_head, append_inv_head in H. now apply join_pair_text_inj.
Qed.

Lemma buildUrl_injective_witness :
  buildUrl_ "https://x.com/a" [("a", "1&b=2")] <>
  buildUrl_ "https://x.com/a" [("a", "1"); ("b", "2")].
Proof.
  apply (buildUrl_injective "https://x.com/a" [("a", "1&b=2")] [("a", "1"); ("b", "2")]).
  - repeat constructor; simpl; intuition discriminate.
  - repeat constructor; simpl; intuition discriminate.
  - discriminate.
Defined.

(** ** getTimeInSeconds_: whole seconds *)

(** X4.  A time value of a whole number of seconds is converted exactly,
    and moving a date by whole seconds moves the result by as many
    seconds, before as well as after the epoch. *)
Theorem getTimeInSeconds_whole_seconds :
  (forall s : Z, getTimeInSeconds_ {| getTime := TimeMs (1000 * s) |} = of_Z s)
  /\ (forall ms k : Z,
        exists s : Z,
          getTimeInSeconds_ {| getTime := TimeMs ms |} = of_Z s
          /\ getTimeInSeconds_ {| getTime := TimeMs (ms + 1000 * k) |} = of_Z (s + k)).
Proof.
  split.
  - intros s. rewrite getTimeInSeconds_floor. f_equal.
    rewrite Z.mul_comm. apply Z.div_mul. lia.
  - intros ms k. exists (ms / 1000)%Z. rewrite !getTimeInSeconds_floor. split; [reflexivity |].
    f_equal. rewrite (Z.mul_comm 1000 k). apply Z.div_add. lia.
Qed.

(** ** validate_: maps put together *)

(** X5.  Validating a map made of two parts is validating the first part
    and then, when it passes, the second: the error is the one of the first
    part when there is one. *)
Theorem validate_append (params1 params2 : list (string * value)) :
  List.NoDup (Object_keys (params1 ++ params2)%list) ->
  validate_ (params1 ++ params2)%list = let* _ := validate_ params1 in validate_ params2.
Proof.
  intros Hnd.
  assert (Hnd1 : List.NoDup (Object_keys params1)).
  { unfold Object_keys in *. rewrite map_app in Hnd. now apply NoDup_app_remove_r in Hnd. }
  assert (Hnd2 : List.NoDup (Object_keys params2)).
  { unfold Object_keys in *. rewrite map_app in Hnd. now apply NoDup_app_remove_l in Hnd. }
  rewrite !validate_entries by assumption. apply forEach_app.
Qed.

Lemma validate_append_witness :
  validate_ ([("client_id", VStr "id"); ("token_url", VNull)] ++ [("scope", VStr "")])%list =
  Throw (Error "token_url is required.").
Proof.
  rewrite (validate_append [("client_id", VStr "id"); ("token_url", VNull)] [("scope", VStr "")]).
  - reflexivity.
  - repeat constructor; simpl; intuition discriminate.
Defined.

(** ** extend_: repetition and chaining *)

Lemma obj_replace_same {V} (o : list (string * V)) (k : string) (v : V) :
  obj_lookup o k = Some v -> obj_replace k v o = o.
Proof.
  induction o as [|[k' v'] o IH]; cbn [obj_lookup obj_replace]; [reflexivity |].
  destruct (String.eqb k' k); intros H; [congruence | now rewrite IH].
Qed.

Lemma heap_set_same (h : heap) (l : loc) (k : string) (v : value) :
  obj_lookup (props h l) k = Some v -> heap_set l k v h = h.
Proof.
  intros H. unfold heap_set, obj_set, obj_define, reaches_setter.
  rewrite H, andb_false_r, (obj_replace_same _ _ _ H).
  unfold props in *. destruct (h !! l) as [o|] eqn:E; [| discriminate H].
  now apply insert_id.
Qed.

(** An assignment that reaches the setter leaves an object of the store as
    it is. *)
Lemma heap_set_setter (h : heap) (l : loc) (k : string) (v : value) :
  reaches_setter (props h l) k = true -> is_Some (h !! l) -> heap_set l k v h = h.
Proof.
  intros H [o Ho]. unfold heap_set, obj_set. rewrite H.
  unfold props. rewrite Ho. now apply insert_id.
Qed.

Lemma extend_loop_same (destination source : loc) (h : heap) (keys : list string) :
  (forall k, In k keys ->
             exists v, obj_lookup (props h source) k = Some v
                       /\ (obj_lookup (props h destination) k = Some v
                           \/ (reaches_setter (props h destination) k = true
                               /\ is_Some (h !! destination)))) ->
  extend_loop destination source keys h = h.
Proof.
  induction keys as [|key keys IH]; intros H; cbn [extend_loop]; [reflexivity |].
  destruct (H key (or_introl eq_refl)) as (v & Hs & [Hd | [Hd Hin]]).
  - unfold heap_get, obj_get. rewrite Hs, (heap_set_same _ _ _ _ Hd).
    apply IH. intros k Hk. apply H. now right.
  - rewrite (heap_set_setter _ _ _ _ Hd Hin).
    apply IH. intros k Hk. apply H. now right.
Qed.

Lemma extend_same (destination source : loc) (h : heap) :
  (forall k v, obj_lookup (props h source) k = Some v ->
               obj_lookup (props h destination) k = Some v) ->
  extend_ destination source h = (destination, h).
Proof.
  intros H. unfold extend_. f_equal. apply extend_loop_same. intros k Hk.
  destruct (obj_lookup (props h source) k) as [v|] eqn:E.
  - exists v. split; [reflexivity | left; now apply H].
  - apply obj_lookup_keys in E. contradiction.
Qed.

(** Every other object is as before. *)
Lemma extend_other (destination source l : loc) (h : heap) :
  l <> destination -> snd (extend_ destination source h) !! l = h !! l.
Proof.
  intros Hne. unfold extend_. cbn [snd].
  pose proof (extend_loop_frame destination source (Object_keys (props h source)) h) as H.
  apply (f_equal (fun m : heap => m !! l)) in H.
  now rewrite !lookup_delete_ne in H by congruence.
Qed.

Lemma props_extend_other (destination source l : loc) (h : heap) :
  l <> destination -> props (snd (extend_ destination source h)) l = props h l.
Proof. intros Hne. unfold props. now rewrite extend_other. Qed.



(** X6.  [extend_] changes nothing when the destination already holds every
    entry of the source; so it changes nothing for a source without
    properties, and nothing when an object is extended with itself. *)
Theorem extend_nothing_to_add :
  (forall (destination source : loc) (h : heap),
      (forall k v, obj_lookup (props h source) k = Some v ->
                   obj_lookup (props h destination) k = Some v) ->
      extend_ destination source h = (destination, h))
  /\ (forall (destination source : loc) (h : heap),
        props h source = [] -> extend_ destination source h = (destination, h))
  /\ (forall (x : loc) (h : heap), extend_ x x h = (x, h)).
Proof.
  split; [exact extend_same | split].
  - intros destination source h Hs. apply extend_same. rewrite Hs. discriminate.
  - intros x h. now apply extend_same.
Qed.

Lemma extend_nothing_to_add_witness :
  let h : heap := <[1%nat := [("b", VNum (of_Z 3))]]>
                  (<[0%nat := [("a", VNum (of_Z 1)); ("b", VNum (of_Z 3))]]> ∅) in
  extend_ 0%nat 1%nat h = (0%nat, h)
  /\ extend_ 0%nat 7%nat h = (0%nat, h).
Proof.
  cbv zeta. split.
  - apply (proj1 extend_nothing_to_add).
    intros k v. vm_compute props. cbn [obj_lookup].
    destruct (String.eqb "b" k) eqn:E; [| discriminate].
    apply String.eqb_eq in E. subst k. intros H. exact H.
  - apply (proj1 (proj2 extend_nothing_to_add)). reflexivity.
Defined.


(** X8.  Extending with a first source and then with a second one, which is
    not the destination, neither of them replacing a prototype, leaves in
    the destination, at a key other than [__proto__], the value of the second source where it has the key, else
    the value of the first source where it has the key, else the value the
    destination had. *)
Theorem extend_chain (destination source1 source2 : loc) (h : heap) (k : string) :
  source2 <> destination ->
  keeps_prototypes (props h source1) = true ->
  keeps_prototypes (props h source2) = true ->
  k <> "__proto__" ->
  obj_lookup
    (props (snd (extend_ destination source2 (snd (extend_ destination source1 h))))
           destination) k =
  match obj_lookup (props h source2) k with
  | Some v => Some v
  | None =>
      match obj_lookup (props h source1) k with
      | Some v => Some v
      | None => obj_lookup (props h destination) k
      end
  end.
Proof.
  intros Hne _ _ Hk. rewrite extend_lookup, props_extend_other by exact Hne.
  rewrite extend_lookup. now rewrite !reaches_setter_other by exact Hk.
Qed.

Lemma extend_chain_witness :
  let h : heap := <[2%nat := [("b", VStr "second"); ("c", VStr "second")]]>
                  (<[1%nat := [("a", VStr "first"); ("b", VStr "first")]]>
                  (<[0%nat := [("a", VStr "old"); ("z", VStr "old")]]> ∅)) in
  obj_lookup (props (snd (extend_ 0%nat 2%nat (snd (extend_ 0%nat 1%nat h)))) 0%nat) "b" =
  Some (VStr "second").
Proof.
  cbv zeta. rewrite extend_chain; [reflexivity | discriminate | reflexivity | reflexivity
                                  | discriminate].
Defined.

(** ** toLowerCaseKeys_: what the copy holds *)

Lemma in_order_NoDup {V} (o : list (string * V)) :
  in_order o = true -> List.NoDup (Object_keys o).
Proof.
  induction o as [|[k v] o IH]; cbn [in_order Object_keys map]; intros H; constructor.
  - apply andb_prop in H as [Hhead _]. rewrite forallb_forall in Hhead.
    intros Hin. apply in_map_iff in Hin as ([k' v'] & Hk & Hin). cbn [fst] in Hk. subst k'.
    specialize (Hhead (k, v') Hin). cbn [fst] in Hhead.
    rewrite String.eqb_refl in Hhead. discriminate.
  - apply IH. now apply andb_prop in H as [_ H].
Qed.



Section LowerCaseCopy.
Variable toLowerCase : string -> string.

(** The object that [toLowerCaseKeys_] builds from the property list [o]. *)
Lemma toLowerCaseKeys_object (l : loc) (h : heap) (o : list (string * value)) :
  h !! l = Some o ->
  List.NoDup (Object_keys o) ->
  toLowerCaseKeys_ toLowerCase (VObject l) h =
  (VObject (fresh (dom h)),
   <[fresh (dom h) := Object_assign [] (map (lower_entry toLowerCase) o)]> h)
  /\ h !! fresh (dom h) = None.
Proof.
  intros Hl Hnd.
  assert (Hfresh : h !! fresh (dom h) = None) by (apply not_elem_of_dom, is_fresh).
  assert (Hne : fresh (dom h) <> l) by congruence.
  split; [| exact Hfresh].
  unfold toLowerCaseKeys_, alloc. simpl. f_equal.
  unfold props at 1. rewrite Hl.
  rewrite (reduce_into_new_object toLowerCase l (fresh (dom h)) o (Object_keys o) Hne _ []).
  - rewrite insert_insert_eq. now rewrite fold_keys_entries.
  - rewrite lookup_insert_ne by exact Hne. exact Hl.
  - apply lookup_insert_eq.
Qed.

Lemma lowered_lookup (o : list (string * value)) (k' : string) :
  obj_lookup (Object_assign [] (map (lower_entry toLowerCase) o)) k' =
  if String.eqb k' "__proto__" then None
  else obj_lookup (rev (map (lower_entry toLowerCase) o)) k'.
Proof.
  rewrite Object_assign_lookup. unfold reaches_setter. cbn [obj_lookup].
  rewrite andb_true_r. destruct (String.eqb k' "__proto__"); [reflexivity |].
  now destruct (obj_lookup (rev (map (lower_entry toLowerCase) o)) k').
Qed.

Lemma lowered_keys (o : list (string * value)) (k' : string) :
  In k' (Object_keys (Object_assign [] (map (lower_entry toLowerCase) o))) <->
  k' <> "__proto__" /\ exists k, In k (Object_keys o) /\ toLowerCase k = k'.
Proof.
  assert (Hkeys : forall a : list (string * value),
             In k' (Object_keys a) <-> obj_lookup a k' <> None).
  { intros a. rewrite obj_lookup_keys. destruct (in_dec string_dec k' (Object_keys a)); tauto. }
  rewrite Hkeys, lowered_lookup.
  destruct (String.eqb_spec k' "__proto__") as [-> | Hk']; [tauto |].
  rewrite <- Hkeys.
  unfold Object_keys. rewrite map_rev, <- in_rev, map_map. cbn [lower_entry fst].
  rewrite in_map_iff. split.
  - intros ([k v] & Hk & Hin). split; [exact Hk' |]. exists k. split; [| exact Hk].
    apply in_map_iff. now exists (k, v).
  - intros (_ & k & Hin & Hk). apply in_map_iff in Hin as ([k0 v] & Hk0 & Hin).
    cbn [fst] in Hk0. subst k0. now exists (k, v).
Qed.

(** X9.  When no prototype is replaced, the copy is an object with
    distinct keys, and its keys are exactly the lower-cased keys of the
    input other than [__proto__]: every input
    key whose lower case is not [__proto__] is found in lower case, and
    nothing else is. *)
Theorem toLowerCaseKeys_keys (l : loc) (h : heap) (o : list (string * value)) :
  h !! l = Some o ->
  List.NoDup (Object_keys o) ->
  keeps_prototypes (map (lower_entry toLowerCase) o) = true ->
  exists (result : loc) (copy : list (string * value)),
    toLowerCaseKeys_ toLowerCase (VObject l) h = (VObject result, <[result := copy]> h)
    /\ List.NoDup (Object_keys copy)
    /\ forall k' : string,
         In k' (Object_keys copy) <->
         k' <> "__proto__" /\ exists k, In k (Object_keys o) /\ toLowerCase k = k'.
Proof.
  intros Hl Hnd _. destruct (toLowerCaseKeys_object l h o Hl Hnd) as [Heq _].
  eexists _, _. split; [exact Heq | split].
  - apply in_order_NoDup, in_order_assign. reflexivity.
  - apply lowered_keys.
Qed.

(** X10.  When no two keys of the input become equal in lower case and
    none becomes [__proto__], the copy holds every value of the input
    under the lower-cased key, and as many properties as the input. *)
Theorem toLowerCaseKeys_lookup (l : loc) (h : heap) (o : list (string * value)) :
  h !! l = Some o ->
  List.NoDup (map toLowerCase (Object_keys o)) ->
  ~ In "__proto__" (map toLowerCase (Object_keys o)) ->
  exists (result : loc) (copy : list (string * value)),
    toLowerCaseKeys_ toLowerCase (VObject l) h = (VObject result, <[result := copy]> h)
    /\ (forall k v, In (k, v) o -> obj_lookup copy (toLowerCase k) = Some v)
    /\ length copy = length o.
Proof.
  intros Hl Hlow Hproto.
  assert (Hnd : List.NoDup (Object_keys o)) by (now apply NoDup_map_inv in Hlow).
  destruct (toLowerCaseKeys_object l h o Hl Hnd) as [Heq _].
  eexists _, _. split; [exact Heq | split].
  - intros k v Hin. rewrite lowered_lookup.
    destruct (String.eqb_spec (toLowerCase k) "__proto__") as [E | _].
    + exfalso. apply Hproto. rewrite <- E. apply in_map. apply in_map_iff. now exists (k, v).
    + apply obj_lookup_In.
      * unfold Object_keys. rewrite map_rev, map_map. cbn [lower_entry fst].
        apply NoDup_rev. unfold Object_keys in Hlow. now rewrite map_map in Hlow.
      * rewrite <- in_rev. apply in_map_iff. now exists (k, v).
  - set (copy := Object_assign [] (map (lower_entry toLowerCase) o)).
    assert (Hcopy : List.NoDup (Object_keys copy))
      by (apply in_order_NoDup, in_order_assign; reflexivity).
    rewrite <- (length_map fst copy), <- (length_map fst o),
      <- (length_map toLowerCase (map fst o)).
    apply Nat.le_antisymm; apply NoDup_incl_length; try assumption.
    + intros k' Hk'. apply lowered_keys in Hk' as (_ & k & Hin & <-). now apply in_map.
    + intros k' Hk'. apply lowered_keys. split.
      * intros ->. contradiction.
      * apply in_map_iff in Hk' as (k & <- & Hin). now exists k.
Qed.


(** X12.  The copy is separate from the input: extending the copy with any
    source leaves the input object as it was. *)
Theorem toLowerCaseKeys_copy_is_separate
        (l source : loc) (h : heap) (o : list (string * value)) :
  h !! l = Some o ->
  List.NoDup (Object_keys o) ->
  exists (result : loc) (copy : list (string * value)),
    toLowerCaseKeys_ toLowerCase (VObject l) h = (VObject result, <[result := copy]> h)
    /\ snd (extend_ result source (<[result := copy]> h)) !! l = Some o.
Proof.
  intros Hl Hnd. destruct (toLowerCaseKeys_object l h o Hl Hnd) as [Heq Hfresh].
  eexists _, _. split; [exact Heq |].
  assert (Hne : l <> fresh (dom h)) by congruence.
  rewrite extend_other by exact Hne. now rewrite lookup_insert_ne by congruence.
Qed.
End LowerCaseCopy.


Lemma toLowerCaseKeys_copy_is_separate_witness :
  exists (result : loc) (copy : list (string * value)),
    toLowerCaseKeys_ ascii_toLowerCase (VObject 0%nat)
      (<[1%nat := [("etag", VStr "new")]]> (<[0%nat := [("ETag", VStr "x")]]> ∅)) =
    (VObject result,
     <[result := copy]> (<[1%nat := [("etag", VStr "new")]]> (<[0%nat := [("ETag", VStr "x")]]> ∅)))
    /\ snd (extend_ result 1%nat
              (<[result := copy]>
                 (<[1%nat := [("etag", VStr "new")]]> (<[0%nat := [("ETag", VStr "x")]]> ∅))))
       !! 0%nat = Some [("ETag", VStr "x")].
Proof.
  apply (toLowerCaseKeys_copy_is_separate ascii_toLowerCase 0%nat 1%nat
           (<[1%nat := [("etag", VStr "new")]]> (<[0%nat := [("ETag", VStr "x")]]> ∅))
           [("ETag", VStr "x")]).
  - reflexivity.
  - repeat constructor; simpl; intuition discriminate.
Defined.

Lemma toLowerCaseKeys_lookup_witness :
  exists (result : loc) (copy : list (string * value)),
    toLowerCaseKeys_ ascii_toLowerCase (VObject 0%nat)
      (<[0%nat := [("Content-Type", VStr "json"); ("ETag", VStr "x")]]> ∅) =
    (VObject result,
     <[result := copy]> (<[0%nat := [("Content-Type", VStr "json"); ("ETag", VStr "x")]]> ∅))
    /\ obj_lookup copy "etag" = Some (VStr "x").
Proof.
  destruct (toLowerCaseKeys_lookup ascii_toLowerCase 0%nat
              (<[0%nat := [("Content-Type", VStr "json"); ("ETag", VStr "x")]]> ∅)
              [("Content-Type", VStr "json"); ("ETag", VStr "x")])
    as (result & copy & Heq & Hlookup & _).
  - apply lookup_insert_eq.
  - repeat constructor; simpl; intuition discriminate.
  - simpl. intuition discriminate.
  - exists result, copy. split; [exact Heq |].
    apply (Hlookup "ETag" (VStr "x")). right. now left.
Defined.

Lemma toLowerCaseKeys_keys_witness :
  exists (result : loc) (copy : list (string * value)),
    toLowerCaseKeys_ ascii_toLowerCase (VObject 0%nat)
      (<[0%nat := [("A", VNum (of_Z 1)); ("a", VNum (of_Z 2))]]> ∅) =
    (VObject result, <[result := copy]> (<[0%nat := [("A", VNum (of_Z 1)); ("a", VNum (of_Z 2))]]> ∅))
    /\ List.NoDup (Object_keys copy)
    /\ In "a" (Object_keys copy).
Proof.
  destruct (toLowerCaseKeys_keys ascii_toLowerCase 0%nat
              (<[0%nat := [("A", VNum (of_Z 1)); ("a", VNum (of_Z 2))]]> ∅)
              [("A", VNum (of_Z 1)); ("a", VNum (of_Z 2))])
    as (result & copy & Heq & Hnd & Hkeys).
  - apply lookup_insert_eq.
  - repeat constructor; simpl; intuition discriminate.
  - reflexivity.
  - exists result, copy. split; [exact Heq | split; [exact Hnd |]].
    apply Hkeys. split; [discriminate |]. exists "A". split; [now left | reflexivity].
Defined.

(** ** encodeJwt_ and decodeJwt_: segments, header fields, rejected tokens *)

Lemma split_dot_free (s : string) : dot_free s = true -> split "." s = [s].
Proof. intros H. now apply split_whole. Qed.

Lemma obj_lookup_rev_none {V} (o : list (string * V)) (k : string) :
  obj_lookup o k = None -> obj_lookup (rev o) k = None.
Proof.
  rewrite !obj_lookup_keys. unfold Object_keys. rewrite map_rev. intros H Hin.
  apply H. now apply in_rev.
Qed.

Section JwtSegments.
Variable computeRsaSha256Signature : string -> string -> list ascii.

(** The token that [encodeJwt_] returns for a payload with a text. *)
Lemma encodeJwt_token (payload : json) (key : string) (customOptions : option Options) :
  serializable payload = true ->
  let toSign :=
    base64url (text (JObj (merged_header customOptions))) ++ "." ++ base64url (text payload) in
  encodeJwt_ computeRsaSha256Signature payload key customOptions =
  Return (toSign ++ "." ++ signer computeRsaSha256Signature customOptions toSign key).
Proof. intros Hok. now rewrite encodeJwt_unfold, (stringify_text payload Hok). Qed.


(** X14.  When the override values are JSON data, the first segment of the
    token is the text of a header that has the properties [alg] and [typ]:
    such overrides can change them but not remove them.  Without an
    override for [alg] the header says [RS256], whatever signing function
    is supplied. *)
Theorem encodeJwt_header_fields
        (payload : json) (key : string) (customOptions : option Options) :
  let overrides := match customOptions with
                   | Some {| header := Some h |} => h
                   | _ => []
                   end in
  serializable payload = true ->
  forallb (fun kv => well_formed (snd kv)) overrides = true ->
  forallb (fun kv => serializable (snd kv)) overrides = true ->
  exists (token header_segment : string) (decoded : list (string * json)),
    encodeJwt_ computeRsaSha256Signature payload key customOptions = Return token
    /\ nth_error (split "." token) 0 = Some header_segment
    /\ decode_segment header_segment = Return (JObj decoded)
    /\ (exists alg, obj_lookup decoded "alg" = Some alg /\ alg <> JUndefined)
    /\ (exists typ, obj_lookup decoded "typ" = Some typ /\ typ <> JUndefined)
    /\ (obj_lookup overrides "alg" = None -> obj_lookup decoded "alg" = Some (JStr "RS256")).
Proof.
  intros overrides Hpayload Hwf Hok.
  assert (Hmerged : merged_header customOptions =
                    Object_assign [("alg", JStr "RS256"); ("typ", JStr "JWT")] overrides)
    by reflexivity.
  destruct (merged_header_data overrides Hwf Hok) as [Hwf' Hok']. cbv zeta in Hwf', Hok'.
  rewrite <- Hmerged in Hwf', Hok'.
  assert (Hdefined : forall k v, obj_lookup (merged_header customOptions) k = Some v ->
                                 v <> JUndefined).
  { intros k v Hk ->. change (forallb (fun kv => serializable (snd kv))
                                (merged_header customOptions) = true) in Hok'.
    rewrite forallb_forall in Hok'.
    assert (Hin : In (k, JUndefined) (merged_header customOptions)).
    { clear - Hk. induction (merged_header customOptions) as [|[k' v'] o IH];
        cbn [obj_lookup] in Hk; [discriminate |].
      destruct (String.eqb_spec k' k) as [-> | _]; [left; congruence | right; auto]. }
    specialize (Hok' _ Hin). discriminate. }
  eexists _, _, _. split; [now apply encodeJwt_token |].
  split; [cbv zeta; now rewrite split_token by apply base64url_dot_free |].
  split; [now apply decode_segment_encode |].
  assert (Hlookup : forall k, k <> "__proto__" ->
             obj_lookup (merged_header customOptions) k =
             match obj_lookup (rev overrides) k with
             | Some v => Some v
             | None => obj_lookup [("alg", JStr "RS256"); ("typ", JStr "JWT")] k
             end).
  { intros k Hk. rewrite Hmerged, Object_assign_lookup.
    now rewrite reaches_setter_other by exact Hk. }
  split; [| split].
  - destruct (obj_lookup (merged_header customOptions) "alg") as [alg|] eqn:E.
    + exists alg. split; [reflexivity | now apply (Hdefined "alg")].
    + rewrite Hlookup in E by discriminate.
      destruct (obj_lookup (rev overrides) "alg"); discriminate.
  - destruct (obj_lookup (merged_header customOptions) "typ") as [typ|] eqn:E.
    + exists typ. split; [reflexivity | now apply (Hdefined "typ")].
    + rewrite Hlookup in E by discriminate.
      destruct (obj_lookup (rev overrides) "typ"); discriminate.
  - intros Hnone. rewrite Hlookup by discriminate.
    now rewrite (obj_lookup_rev_none _ _ Hnone).
Qed.

(** X15.  Two different payloads that are JSON data never give the same
    token, whatever the keys, the header overrides and the signing
    functions are. *)
Theorem encodeJwt_payload_determined
        (payload1 payload2 : json) (key1 key2 : string)
        (customOptions1 customOptions2 : option Options) :
  well_formed payload1 = true -> serializable payload1 = true ->
  well_formed payload2 = true -> serializable payload2 = true ->
  payload1 <> payload2 ->
  exists token1 token2 : string,
    encodeJwt_ computeRsaSha256Signature payload1 key1 customOptions1 = Return token1
    /\ encodeJwt_ computeRsaSha256Signature payload2 key2 customOptions2 = Return token2
    /\ token1 <> token2.
Proof.
  intros Hwf1 Hok1 Hwf2 Hok2 Hne.
  eexists _, _. split; [now apply encodeJwt_token | split; [now apply encodeJwt_token |]].
  cbv zeta. intros Heq. apply Hne.
  apply (f_equal decodeJwt_) in Heq.
  rewrite !decodeJwt_segment, !split_token in Heq by apply base64url_dot_free.
  cbn [nth_error] in Heq. rewrite !decode_segment_encode in Heq by assumption.
  now injection Heq.
Qed.
End JwtSegments.

Lemma encodeJwt_header_fields_witness :
  exists (token header_segment : string) (decoded : list (string * json)),
    encodeJwt_ (fun _ _ => []) example_payload "secret"
      (Some {| header := Some [("kid", JStr "k1")];
               computeJWTSignature := Some example_signer |}) = Return token
    /\ nth_error (split "." token) 0 = Some header_segment
    /\ decode_segment header_segment = Return (JObj decoded)
    /\ obj_lookup decoded "alg" = Some (JStr "RS256").
Proof.
  destruct (encodeJwt_header_fields (fun _ _ => []) example_payload "secret"
              (Some {| header := Some [("kid", JStr "k1")];
                       computeJWTSignature := Some example_signer |}))
    as (token & header_segment & decoded & Htoken & Hsplit & Hdecode & _ & _ & Halg);
    try reflexivity.
  exists token, header_segment, decoded.
  split; [exact Htoken | split; [exact Hsplit | split; [exact Hdecode |]]].
  apply Halg. reflexivity.
Defined.

Lemma encodeJwt_payload_determined_witness :
  exists token1 token2 : string,
    encodeJwt_ (fun _ _ => []) (JObj [("exp", JNum (double_of_Z 1))]) "secret" None =
    Return token1
    /\ encodeJwt_ (fun _ _ => []) (JObj [("exp", JNum (of_decimal false 15 (-1)))]) "secret" None =
       Return token2
    /\ token1 <> token2.
Proof.
  apply (encodeJwt_payload_determined (fun _ _ => [])); try reflexivity.
  vm_compute. discriminate.
Defined.

(** X16.  A token without a signature part, and with any dot-free text,
    also the empty one, as its header, is decoded like a complete one. *)
Theorem decodeJwt_two_segments (payload : json) (payload_text h : string) :
  well_formed payload = true ->
  serializable payload = true ->
  JSON.stringify payload = Some payload_text ->
  dot_free h = true ->
  decodeJwt_ (h ++ "." ++ base64url payload_text) = Return payload.
Proof.
  intros Hwf Hok Htext Hh.
  rewrite (stringify_text payload Hok) in Htext. injection Htext as <-.
  rewrite decodeJwt_segment.
  change ("." ++ base64url (text payload)) with (String "." (base64url (text payload))).
  rewrite split_segment by exact Hh.
  rewrite split_dot_free by apply base64url_dot_free.
  cbn [nth_error]. now apply decode_segment_encode.
Qed.

Lemma decodeJwt_two_segments_witness :
  decodeJwt_ ("" ++ "." ++ base64url (text example_payload)) = Return example_payload.
Proof. apply (decodeJwt_two_segments example_payload _ ""); reflexivity. Defined.

(** X17.  [decodeJwt_] does not return a value for a text without a dot,
    nor for a token whose second segment is empty: it throws. *)
Theorem decodeJwt_rejects :
  (forall jwt : string,
      dot_free jwt = true -> exists e, decodeJwt_ jwt = Throw e)
  /\ (forall h rest : string,
        dot_free h = true -> exists e, decodeJwt_ (h ++ "." ++ "." ++ rest) = Throw e).
Proof.
  split.
  - intros jwt Hjwt. rewrite decodeJwt_segment, split_dot_free by exact Hjwt.
    cbn [nth_error]. now eexists.
  - intros h rest Hh. rewrite decodeJwt_segment.
    change ("." ++ "." ++ rest) with (String "." ("" ++ String "." rest)).
    rewrite split_segment by exact Hh. rewrite split_segment by reflexivity.
    cbn [nth_error]. now eexists.
Qed.

Lemma decodeJwt_rejects_witness :
  (exists e, decodeJwt_ "not-a-token" = Throw e)
  /\ (exists e, decodeJwt_ ("header" ++ "." ++ "." ++ "signature") = Throw e).
Proof.
  split.
  - apply (proj1 decodeJwt_rejects). reflexivity.
  - apply (proj2 decodeJwt_rejects). reflexivity.
Defined.

(** ** encodeJwt_: the order of the header fields *)

Lemma Object_keys_replace {V} (o : list (string * V)) (k : string) (v : V) :
  Object_keys (obj_replace k v o) = Object_keys o.
Proof.
  unfold Object_keys. induction o as [|[k' v'] o IH]; cbn [obj_replace map]; [reflexivity |].
  destruct (String.eqb k' k); cbn [map fst]; [reflexivity | now rewrite IH].
Qed.

Lemma Object_keys_create {V} (o : list (string * V)) (k : string) (v : V) :
  array_index k = None -> Object_keys (obj_create k v o) = (Object_keys o ++ [k])%list.
Proof.
  intros Hk. rewrite obj_create_last.
  - unfold Object_keys. now rewrite map_app.
  - intros kv _. unfold precedes. now rewrite Hk.
Qed.

Lemma Object_keys_set {V} (o : list (string * V)) (k : string) (v : V) :
  array_index k = None ->
  Object_keys (obj_set k v o) =
  if existsb (String.eqb k) (Object_keys o) || String.eqb k "__proto__"
  then Object_keys o else (Object_keys o ++ [k])%list.
Proof.
  intros Hk. unfold obj_set, obj_define, reaches_setter. rewrite existsb_keys.
  destruct (obj_lookup o k); cbn [orb].
  - rewrite andb_false_r. apply Object_keys_replace.
  - rewrite andb_true_r. destruct (String.eqb k "__proto__"); [reflexivity |].
    now apply Object_keys_create.
Qed.

(** Keys that are not array indices: [Object.assign] keeps the keys of the
    target in place and adds the new keys of the source other than
    [__proto__] after them, in the order of the source. *)
Lemma Object_keys_assign {V} (source : list (string * V)) :
  forall target : list (string * V),
    forallb (fun k => match array_index k with None => true | Some _ => false end)
            (Object_keys source) = true ->
    List.NoDup (Object_keys source) ->
    Object_keys (Object_assign target source) =
    (Object_keys target ++
     List.filter (fun k => negb (existsb (String.eqb k) (Object_keys target)
                                 || String.eqb k "__proto__"))
                 (Object_keys source))%list.
Proof.
  unfold Object_assign.
  induction source as [|[k v] source IH]; intros target Hidx Hnd;
    cbn [fold_left Object_keys map List.filter fst snd forallb] in *.
  - now rewrite app_nil_r.
  - apply andb_prop in Hidx as [Hk Hidx]. inversion Hnd as [|? ? Hnin Hnd']; subst.
    destruct (array_index k) eqn:Ek; [discriminate |].
    fold (Object_keys source) in *.
    change (map fst (fold_left (fun t kv => obj_set (fst kv) (snd kv) t) source (obj_set k v target)))
      with (Object_keys (fold_left (fun t kv => obj_set (fst kv) (snd kv) t) source (obj_set k v target))).
    rewrite IH by assumption. rewrite Object_keys_set by exact Ek.
    fold (Object_keys target). cbn [List.filter].
    destruct (existsb (String.eqb k) (Object_keys target) || String.eqb k "__proto__") eqn:Ein;
      cbn [negb].
    + reflexivity.
    + rewrite <- app_assoc. cbn [app]. do 2 f_equal.
      apply List.filter_ext_in. intros k' Hk'. rewrite existsb_app. cbn [existsb].
      rewrite orb_false_r.
      destruct (String.eqb_spec k' k) as [-> | _]; [contradiction |].
      now rewrite orb_false_r.
Qed.

Section JwtHeaderOrder.
Variable computeRsaSha256Signature : string -> string -> list ascii.

(** X18.  When the header overrides are JSON data with distinct keys, none
    of them an array index, the header that the first segment of the token
    decodes to lists [alg], then [typ], then the override keys other than
    these two and [__proto__], in the caller's order; an override of [alg]
    or [typ] changes the value in place. *)
Theorem encodeJwt_header_order
        (payload : json) (key : string) (customOptions : option Options) :
  let overrides := match customOptions with
                   | Some {| header := Some h |} => h
                   | _ => []
                   end in
  serializable payload = true ->
  forallb (fun kv => well_formed (snd kv)) overrides = true ->
  forallb (fun kv => serializable (snd kv)) overrides = true ->
  forallb (fun k => match array_index k with None => true | Some _ => false end)
          (Object_keys overrides) = true ->
  List.NoDup (Object_keys overrides) ->
  exists (token header_segment : string) (decoded : list (string * json)),
    encodeJwt_ computeRsaSha256Signature payload key customOptions = Return token
    /\ nth_error (split "." token) 0 = Some header_segment
    /\ decode_segment header_segment = Return (JObj decoded)
    /\ Object_keys decoded =
       ("alg" :: "typ" ::
        List.filter (fun k => negb (String.eqb k "alg" || String.eqb k "typ"
                                    || String.eqb k "__proto__"))
               (Object_keys overrides))%list.
Proof.
  intros overrides Hpayload Hwf Hok Hidx Hnd.
  assert (Hmerged : merged_header customOptions =
                    Object_assign [("alg", JStr "RS256"); ("typ", JStr "JWT")] overrides)
    by reflexivity.
  destruct (merged_header_data overrides Hwf Hok) as [Hwf' Hok']. cbv zeta in Hwf', Hok'.
  rewrite <- Hmerged in Hwf', Hok'.
  eexists _, _, _. split; [now apply encodeJwt_token |].
  split; [cbv zeta; now rewrite split_token by apply base64url_dot_free |].
  split; [now apply decode_segment_encode |].
  rewrite Hmerged, Object_keys_assign by assumption. cbn [Object_keys map fst app]. do 2 f_equal.
  apply List.filter_ext. intros k. cbn [existsb]. now rewrite orb_false_r.
Qed.
End JwtHeaderOrder.

Lemma encodeJwt_header_order_witness :
  exists (token header_segment : string) (decoded : list (string * json)),
    encodeJwt_ (fun _ _ => []) example_payload "secret"
      (Some {| header := Some [("kid", JStr "k1"); ("alg", JStr "ES256"); ("x5t", JStr "t")];
               computeJWTSignature := None |}) = Return token
    /\ nth_error (split "." token) 0 = Some header_segment
    /\ decode_segment header_segment = Return (JObj decoded)
    /\ Object_keys decoded = ["alg"; "typ"; "kid"; "x5t"].
Proof.
  apply (encodeJwt_header_order (fun _ _ => []) example_payload "secret"
           (Some {| header := Some [("kid", JStr "k1"); ("alg", JStr "ES256"); ("x5t", JStr "t")];
                    computeJWTSignature := None |})); try reflexivity.
  repeat constructor; simpl; intuition discriminate.
Defined.

(** ** encodeJwt_ and decodeJwt_: what the round trip does not keep *)

Section JwtJson.
Variable computeRsaSha256Signature : string -> string -> list ascii.

(** X19.  For every payload that [JSON.stringify] gives a text for,
    decoding the token that [encodeJwt_] returns is parsing that text,
    whatever the key and the options are: the round trip through a token
    is the round trip through JSON.  So what JSON does not keep is not
    kept: a member that is [undefined] is gone, an item that is
    [undefined] and a NaN come back as [null], and a negative zero comes
    back as zero. *)
Theorem decodeJwt_encodeJwt_is_JSON :
  (forall (payload : json) (payload_text key : string) (customOptions : option Options),
      JSON.stringify payload = Some payload_text ->
      exists token : string,
        encodeJwt_ computeRsaSha256Signature payload key customOptions = Return token
        /\ decodeJwt_ token = JSON.parse payload_text)
  /\ JSON.parse (text (JObj [("a", JUndefined); ("b", JArr [JUndefined; JNum DNaN])])) =
     Return (JObj [("b", JArr [JNull; JNull])])
  /\ JSON.parse (text (JArr [JNum (DZero true)])) = Return (JArr [JNum (DZero false)]).
Proof.
  split; [| split; vm_compute; reflexivity].
  intros payload payload_text key customOptions Htext.
  rewrite encodeJwt_unfold, Htext. cbv zeta. eexists. split; [reflexivity |].
  rewrite decodeJwt_segment, split_token by apply base64url_dot_free.
  cbn [nth_error]. unfold decode_segment, base64url, Utilities.base64DecodeWebSafe.
  rewrite base64_decode_encode. cbn [bind]. now rewrite getDataAsString_newBlob.
Qed.
End JwtJson.

Lemma decodeJwt_encodeJwt_is_JSON_witness :
  exists token : string,
    encodeJwt_ (fun _ _ => []) (JObj [("a", JUndefined)]) "secret" None = Return token
    /\ decodeJwt_ token = Return (JObj []).
Proof.
  destruct (proj1 (decodeJwt_encodeJwt_is_JSON (fun _ _ => []))
              (JObj [("a", JUndefined)]) "{}" "secret" None eq_refl)
    as (token & Htoken & Hdecode).
  exists token. split; [exact Htoken |]. rewrite Hdecode. reflexivity.
Defined.

(** X20.  [decodeJwt_] returns what [JSON.parse] reads from the text whose
    base64url text is the second segment, whatever the other segments are.
    Numerals are read the way the host reads them: a numeral with a
    fraction or an exponent is accepted, and a numeral that is not a double
    is rounded to the nearest one, so the payload segment that holds
    [{"n":9007199254740993}] decodes to 9007199254740992. *)
Theorem decodeJwt_parses_second_segment :
  (forall h payload_text signature : string,
      dot_free h = true ->
      decodeJwt_ ((h ++ "." ++ base64url payload_text) ++ "." ++ signature) =
      JSON.parse payload_text)
  /\ decodeJwt_ "h.eyJuIjo5MDA3MTk5MjU0NzQwOTkzfQ==.s" =
     Return (JObj [("n", JNum (double_of_Z 9007199254740992))])
  /\ double_of_Z 9007199254740992 = DFinite false 4503599627370496 1
  /\ JSON.parse "[1.5e3,-0.25,1E-2]" =
     Return (JArr [JNum (double_of_Z 1500); JNum (of_decimal true 25 (-2));
                   JNum (of_decimal false 1 (-2))]).
Proof.
  split; [| repeat split; vm_compute; reflexivity].
  intros h payload_text signature Hh.
  rewrite decodeJwt_segment, split_token by (exact Hh || apply base64url_dot_free).
  cbn [nth_error]. unfold decode_segment, base64url, Utilities.base64DecodeWebSafe.
  rewrite base64_decode_encode. cbn [bind]. now rewrite getDataAsString_newBlob.
Qed.

Lemma decodeJwt_parses_second_segment_witness :
  decodeJwt_ (("" ++ "." ++ base64url "{ } ") ++ "." ++ "a.b.c") = Return (JObj []).
Proof.
  rewrite (proj1 decodeJwt_parses_second_segment "" "{ } " "a.b.c" eq_refl). reflexivity.
Defined.
